(** * Capture-point walking: step-adaptation QP, trajectory buffers, walking FSM

    A shallow embedding of the parts of the walking controller that the
    specification talks about:

    - [QPSolver.cpp]: the wrapper that builds the Hessian, the constraint
      matrix and the bounds of the three-variable step-adaptation problem;
    - [StepAdaptator.cpp]: the sigma/time encoding of the impact time;
    - [WalkingModule.cpp]: the reference buffers, the merge-point scheduler,
      the Fz saturation and the periodic [updateModule] tick.

    C++ [double]s are read as exact real numbers ([R]); [size_t] values are
    integers in [0, 2^64) with the wrap-around written out; [std::deque] and
    [std::vector] are lists.  Undefined behaviour of the C++ containers
    (front/back/pop on an empty container, indexing out of range) is kept
    apart from ordinary failure: it is the outcome [Undefined]. *)

From Stdlib Require Import Reals Lra Lia ZArith List Bool Psatz Sorted.
Import ListNotations.

Open Scope R_scope.

(* ================================================================== *)
(** * Fixed-size vectors (iDynTree) and sparse matrices (Eigen) *)
(* ================================================================== *)

(** [iDynTree::Vector3], [iDynTree::Vector4] and [iDynTree::VectorFixSize<5>].
    The element access [v(i)] is [at3 v i], [at4 v i], [at5 v i]. *)
Record Vector3 := mkVector3 { v3_0 : R; v3_1 : R; v3_2 : R }.
Record Vector4 := mkVector4 { v4_0 : R; v4_1 : R; v4_2 : R; v4_3 : R }.
Record Vector5 := mkVector5 { v5_0 : R; v5_1 : R; v5_2 : R; v5_3 : R; v5_4 : R }.

Definition at3 (v : Vector3) (i : nat) : R :=
  match i with
  | 0%nat => v3_0 v
  | 1%nat => v3_1 v
  | _ => v3_2 v
  end.

Definition at4 (v : Vector4) (i : nat) : R :=
  match i with
  | 0%nat => v4_0 v
  | 1%nat => v4_1 v
  | 2%nat => v4_2 v
  | _ => v4_3 v
  end.

Definition at5 (v : Vector5) (i : nat) : R :=
  match i with
  | 0%nat => v5_0 v
  | 1%nat => v5_1 v
  | 2%nat => v5_2 v
  | 3%nat => v5_3 v
  | _ => v5_4 v
  end.

(** [Eigen::SparseMatrix<double>]: the dimensions and the inserted
    coefficients; a coefficient that was never inserted is zero. *)
Record SparseMatrix := mkSparse {
  sm_rows : nat;
  sm_cols : nat;
  sm_entries : list (nat * nat * R)
}.

Definition resize (r c : nat) : SparseMatrix := mkSparse r c [].

Definition insert (i j : nat) (v : R) (M : SparseMatrix) : SparseMatrix :=
  mkSparse (sm_rows M) (sm_cols M) ((i, j, v) :: sm_entries M).

Fixpoint lookup_entry (l : list (nat * nat * R)) (i j : nat) : R :=
  match l with
  | [] => 0
  | (i', j', v) :: l' =>
      if (Nat.eqb i i' && Nat.eqb j j')%bool then v else lookup_entry l' i j
  end.

Definition coeff (M : SparseMatrix) (i j : nat) : R :=
  lookup_entry (sm_entries M) i j.

(** Row [i] of [M] applied to the decision vector [(z, sigma, delta)]. *)
Definition row_apply (M : SparseMatrix) (i : nat) (x : Vector3) : R :=
  coeff M i 0 * at3 x 0 + coeff M i 1 * at3 x 1 + coeff M i 2 * at3 x 2.

(** The quadratic form [x^T M x] of a three by three matrix. *)
Definition quad_form (M : SparseMatrix) (x : Vector3) : R :=
  at3 x 0 * row_apply M 0 x + at3 x 1 * row_apply M 1 x + at3 x 2 * row_apply M 2 x.

Definition symmetric (M : SparseMatrix) : Prop :=
  forall i j : nat, coeff M i j = coeff M j i.

Definition positive_definite (M : SparseMatrix) : Prop :=
  forall x : Vector3,
    (at3 x 0 <> 0 \/ at3 x 1 <> 0 \/ at3 x 2 <> 0) -> 0 < quad_form M x.

(** The linear constraints of an OSQP problem, [l <= A x <= u], row by row
    for the five rows of the step-adaptation problem. *)
Definition admits (A : SparseMatrix) (l u : list R) (x : Vector3) : Prop :=
  forall i : nat, (i < 5)%nat ->
    nth i l 0 <= row_apply A i x /\ row_apply A i x <= nth i u 0.

(* ================================================================== *)
(** * QPSolver.cpp *)
(* ================================================================== *)

Module QPSolver.

(** The interface of the third-party [OsqpEigen::Solver] that the wrapper
    drives.  A setter answers [None] when the library call returns false and
    the new solver otherwise; [INFTY] is [OsqpEigen::INFTY]. *)
Record OsqpEigen := mkOsqpEigen {
  Solver : Type;
  isInitialized : Solver -> bool;
  data_setHessianMatrix : SparseMatrix -> Solver -> option Solver;
  data_setLinearConstraintsMatrix : SparseMatrix -> Solver -> option Solver;
  updateLinearConstraintsMatrix : SparseMatrix -> Solver -> option Solver;
  data_setLowerBound : list R -> Solver -> option Solver;
  data_setUpperBound : list R -> Solver -> option Solver;
  updateBounds : list R -> list R -> Solver -> option Solver;
  INFTY : R
}.

Section Wrapper.

Context (O : OsqpEigen).

(** The members of [QPSolver] that the modelled methods touch. *)
Record t := mk {
  m_QPSolver : Solver O;
  m_hessian : SparseMatrix;
  m_constraintsMAtrix : SparseMatrix;
  m_lowerBound : list R;
  m_upperBound : list R
}.

Definition with_solver (q : Solver O) (s : t) : t :=
  mk q (m_hessian s) (m_constraintsMAtrix s) (m_lowerBound s) (m_upperBound s).

(** The local [Hessian] of [setHessianMatrix]: five insertions into a
    three by three matrix. *)
Definition Hessian (alphaVector : Vector4) : SparseMatrix :=
  insert 2 2 (at4 alphaVector 0 + at4 alphaVector 1)
    (insert 2 0 (at4 alphaVector 0)
      (insert 1 1 (at4 alphaVector 2)
        (insert 0 2 (at4 alphaVector 0)
          (insert 0 0 (at4 alphaVector 0 + at4 alphaVector 3)
            (resize 3 3))))).

(** [QPSolver::setHessianMatrix].  The member [m_hessian] is overwritten
    first; on an initialized solver the method only warns (its
    [return false] is commented out) and falls through to [return true]. *)
Definition setHessianMatrix (alphaVector : Vector4) (s : t) : bool * t :=
  let s1 := mk (m_QPSolver s) (Hessian alphaVector) (m_constraintsMAtrix s)
               (m_lowerBound s) (m_upperBound s) in
  if isInitialized O (m_QPSolver s1) then (true, s1)
  else
    match data_setHessianMatrix O (Hessian alphaVector) (m_QPSolver s1) with
    | None => (false, s1)
    | Some q => (true, with_solver q s1)
    end.

(** [QPSolver::evaluateConstraintsMatrix]: seven insertions into a five by
    three matrix. *)
Definition evaluateConstraintsMatrix (currentValuesVector : Vector3) : SparseMatrix :=
  insert 4 1 (-1)
    (insert 3 1 1
      (insert 2 0 (-1)
        (insert 1 0 1
          (insert 0 2 1
            (insert 0 1 ((at3 currentValuesVector 0 + at3 currentValuesVector 2)
                         - at3 currentValuesVector 1
                         - (at3 currentValuesVector 2) / 2)
              (insert 0 0 1 (resize 5 3))))))).

(** [QPSolver::setConstraintsMatrix]. *)
Definition setConstraintsMatrix (currentValuesVector : Vector3) (s : t) : bool * t :=
  let A := evaluateConstraintsMatrix currentValuesVector in
  let s1 := mk (m_QPSolver s) (m_hessian s) A (m_lowerBound s) (m_upperBound s) in
  if isInitialized O (m_QPSolver s1) then
    match updateLinearConstraintsMatrix O A (m_QPSolver s1) with
    | None => (false, s1)
    | Some q => (true, with_solver q s1)
    end
  else
    match data_setLinearConstraintsMatrix O A (m_QPSolver s1) with
    | None => (false, s1)
    | Some q => (true, with_solver q s1)
    end.

(** The local [StepDuration] of [setBoundsVectorOfConstraints]. *)
Definition StepDuration (nominalValuesVector : Vector5) : R :=
  ln (at5 nominalValuesVector 1) / at5 nominalValuesVector 4.

(** The two comma-initialised vectors of [setBoundsVectorOfConstraints]. *)
Definition upperBoundOf (nominalValuesVector : Vector5) (currentValuesVector : Vector3)
    (tolerenceOfBounds : Vector4) : list R :=
  let StepDuration := StepDuration nominalValuesVector in
  [ at3 currentValuesVector 2 / 2 + at3 currentValuesVector 0;
    at5 nominalValuesVector 0 + at4 tolerenceOfBounds 0;
    at5 nominalValuesVector 0 - at4 tolerenceOfBounds 1;
    exp ((StepDuration + at4 tolerenceOfBounds 2) * at5 nominalValuesVector 4);
    exp ((StepDuration - at4 tolerenceOfBounds 2) * at5 nominalValuesVector 4) ].

Definition lowerBoundOf (currentValuesVector : Vector3) : list R :=
  [ at3 currentValuesVector 2 / 2 + at3 currentValuesVector 0;
    - INFTY O;
    - INFTY O;
    - INFTY O;
    - INFTY O ].

(** [QPSolver::setBoundsVectorOfConstraints]. *)
Definition setBoundsVectorOfConstraints (nominalValuesVector : Vector5)
    (currentValuesVector : Vector3) (tolerenceOfBounds : Vector4) (s : t) : bool * t :=
  let ub := upperBoundOf nominalValuesVector currentValuesVector tolerenceOfBounds in
  let lb := lowerBoundOf currentValuesVector in
  let s1 := mk (m_QPSolver s) (m_hessian s) (m_constraintsMAtrix s) lb ub in
  if isInitialized O (m_QPSolver s1) then
    match updateBounds O lb ub (m_QPSolver s1) with
    | None => (false, s1)
    | Some q => (true, with_solver q s1)
    end
  else
    match data_setLowerBound O lb (m_QPSolver s1) with
    | None => (false, s1)
    | Some q =>
        match data_setUpperBound O ub q with
        | None => (false, with_solver q s1)
        | Some q' => (true, with_solver q' s1)
        end
    end.

(** The constraints of one tick: the matrix and then the bounds are
    installed from the tick's nominal and current values. *)
Definition tickConstraints (nominalValuesVector : Vector5) (currentValuesVector : Vector3)
    (tolerenceOfBounds : Vector4) (s : t) : t :=
  snd (setBoundsVectorOfConstraints nominalValuesVector currentValuesVector
         tolerenceOfBounds (snd (setConstraintsMatrix currentValuesVector s))).

(** A decision vector is admitted by the wrapper's current constraints. *)
Definition admitted (s : t) (x : Vector3) : Prop :=
  admits (m_constraintsMAtrix s) (m_lowerBound s) (m_upperBound s) x.

End Wrapper.

Arguments m_QPSolver {O} _.
Arguments m_hessian {O} _.
Arguments m_constraintsMAtrix {O} _.
Arguments m_lowerBound {O} _.
Arguments m_upperBound {O} _.

(** A reference solver used to run the wrapper on concrete inputs: it stores
    what it is given, accepts every update, and refuses a second Hessian. *)
Record RefSolver := mkRef {
  ref_initialized : bool;
  ref_hessian : option SparseMatrix;
  ref_constraints : option SparseMatrix;
  ref_lower : option (list R);
  ref_upper : option (list R)
}.

Definition refOsqp : OsqpEigen :=
  mkOsqpEigen RefSolver ref_initialized
    (fun H q => match ref_hessian q with
                | Some _ => None
                | None => Some (mkRef (ref_initialized q) (Some H) (ref_constraints q)
                                      (ref_lower q) (ref_upper q))
                end)
    (fun A q => Some (mkRef (ref_initialized q) (ref_hessian q) (Some A)
                            (ref_lower q) (ref_upper q)))
    (fun A q => Some (mkRef (ref_initialized q) (ref_hessian q) (Some A)
                            (ref_lower q) (ref_upper q)))
    (fun l q => Some (mkRef (ref_initialized q) (ref_hessian q) (ref_constraints q)
                            (Some l) (ref_upper q)))
    (fun u q => Some (mkRef (ref_initialized q) (ref_hessian q) (ref_constraints q)
                            (ref_lower q) (Some u)))
    (fun l u q => Some (mkRef (ref_initialized q) (ref_hessian q) (ref_constraints q)
                              (Some l) (Some u)))
    (IZR (10 ^ 20)).

(** [QPSolver::initialize] on the reference solver. *)
Definition refInitSolver (q : RefSolver) : RefSolver :=
  mkRef true (ref_hessian q) (ref_constraints q) (ref_lower q) (ref_upper q).

Definition refFresh : t refOsqp :=
  mk refOsqp (mkRef false None None None None) (resize 0 0) (resize 0 0) [] [].

(** ** The gradient *)

Section Gradient.

Context (O : OsqpEigen).

(** The two library calls that take the gradient: [data()->setGradient]
    before the solver is initialized, [updateGradient] afterwards. *)
Context (data_setGradient updateGradient : list R -> Solver O -> option (Solver O)).

(** The wrapper together with its member [m_gradient]. *)
Record withGradient := mkWithGradient {
  wrapper : t O;
  m_gradient : list R
}.

(** The three coefficients streamed into [m_gradient]. *)
Definition gradientOf (alphaVector : Vector4) (nominalValuesVector : Vector5) : list R :=
  [ - at4 alphaVector 0 * at5 nominalValuesVector 3
    - at5 nominalValuesVector 0 * at4 alphaVector 3;
    - at4 alphaVector 2 * at5 nominalValuesVector 1;
    - at5 nominalValuesVector 2 * at4 alphaVector 1
    - at5 nominalValuesVector 3 * at4 alphaVector 0 ].

(** [QPSolver::setGradientVector] *)
Definition setGradientVector (alphaVector : Vector4) (nominalValuesVector : Vector5)
    (s : withGradient) : bool * withGradient :=
  let g := gradientOf alphaVector nominalValuesVector in
  if isInitialized O (m_QPSolver (wrapper s)) then
    match updateGradient g (m_QPSolver (wrapper s)) with
    | None => (false, mkWithGradient (wrapper s) g)
    | Some q => (true, mkWithGradient (with_solver O q (wrapper s)) g)
    end
  else
    match data_setGradient g (m_QPSolver (wrapper s)) with
    | None => (false, mkWithGradient (wrapper s) g)
    | Some q => (true, mkWithGradient (with_solver O q (wrapper s)) g)
    end.

End Gradient.

Arguments wrapper {O} _.
Arguments m_gradient {O} _.

(** The objective that OSQP minimises, [x^T H x / 2 + g^T x]. *)
Definition objective (H : SparseMatrix) (g : list R) (x : Vector3) : R :=
  quad_form H x / 2
  + (nth 0 g 0 * at3 x 0 + nth 1 g 0 * at3 x 1 + nth 2 g 0 * at3 x 2).

(** The weighted tracking cost of a point [(z, sigma, delta)]: the distance
    of each variable to its nominal value, and of [z + delta] to the nominal
    next DCM. *)
Definition trackingCost (alphaVector : Vector4) (nominalValuesVector : Vector5)
    (x : Vector3) : R :=
  (at4 alphaVector 3 * (at3 x 0 - at5 nominalValuesVector 0) ^ 2
   + at4 alphaVector 2 * (at3 x 1 - at5 nominalValuesVector 1) ^ 2
   + at4 alphaVector 1 * (at3 x 2 - at5 nominalValuesVector 2) ^ 2
   + at4 alphaVector 0 * (at3 x 0 + at3 x 2 - at5 nominalValuesVector 3) ^ 2) / 2.

End QPSolver.

(* ================================================================== *)
(** * StepAdaptator.cpp *)
(* ================================================================== *)

Module StepAdaptator.

(** The timing members of [StepAdaptator]. *)
Record t := mk {
  m_nextDoubleSupportDuration : R;
  m_currentTime : R;
  m_stepTiming : R;
  m_remainingSingleSupportDuration : R;
  m_sigmaNominal : R;
  m_omega : R
}.

(** The two directions of the sigma/time encoding, as the code writes them:
    [std::exp(omega * T)] and [std::log(sigma) / omega]. *)
Definition sigmaOfTime (omega T : R) : R := exp (omega * T).

Definition timeOfSigma (omega sigma : R) : R := ln sigma / omega.

(** [StepAdaptator::setTimings].  Every member it writes is a member of the
    record, so the previous state does not matter. *)
Definition setTimings (omega currentTime nextImpactTime nextDoubleSupportDuration : R) : t :=
  let stepTiming := nextImpactTime + nextDoubleSupportDuration / 2 - currentTime in
  mk nextDoubleSupportDuration
     currentTime
     stepTiming
     (nextImpactTime - currentTime)
     (sigmaOfTime omega stepTiming)
     omega.

(** [StepAdaptator::getDesiredImpactTime]; [solution] is what
    [m_currentQPSolver->getSolution()] returns, and the method reads its
    component of index 2.  Reading past the end of the vector is not
    defined: [None]. *)
Definition getDesiredImpactTime (s : t) (solution : list R) : option R :=
  match nth_error solution 2 with
  | None => None
  | Some sigma =>
      let optimalStepDuration := timeOfSigma (m_omega s) sigma in
      Some (m_currentTime s + optimalStepDuration - m_nextDoubleSupportDuration s / 2)
  end.

End StepAdaptator.

(* ================================================================== *)
(** * WalkingModule.cpp *)
(* ================================================================== *)

Module WalkingModule.

Inductive WalkingFSM :=
| Configured | Preparing | Prepared | Walking | Paused | Stopped.

Definition Vector2 : Type := (R * R)%type.

(** A planned footstep, as far as the tick reads it. *)
Record Step := mkStep { impactTime : R; position : Vector2 }.

(** [size_t] is taken to be 64 bits wide; [int] to be 32 bits wide. *)
Definition wrap (z : Z) : Z := (z mod 2 ^ 64)%Z.

Definition INT_MAX : Z := (2 ^ 31 - 1)%Z.

(** [WalkingModule::saturateFz(double& Fz, const double thresholdFz)]: the
    returned flag and the value left in [Fz].  The three comparisons are
    kept in the order of the source. *)
Definition saturateFz (Fz thresholdFz : R) : bool * R :=
  if Rlt_dec thresholdFz 0 then (false, Fz)
  else if Rge_dec Fz thresholdFz then (true, Fz)
  else if Rlt_dec Fz thresholdFz then (true, 0)
  else (true, Fz).

(** Which of the two step-adaptation blocks of the tick called the solver. *)
Inductive Trigger := RightSwing | LeftSwing.

(** The calls to collaborators that the properties below talk about, logged
    in the order in which the tick makes them (newest first). *)
Inductive Event :=
| AskNewTrajectories (mergePoint : Z)
| GetFeedbacks
| RunStepAdaptator (trigger : Trigger) (nominalValues : Vector5) (currentValues : Vector3)
| SetDirectPositionReferences
| Reset.

(** ** Control flow of a C++ member function

    A computation either goes on with a value, executes [return b], lets an
    exception escape, or runs into undefined behaviour. *)
Inductive result (S A : Type) :=
| Next (a : A) (s : S)
| Return (b : bool) (s : S)
| Throw (s : S)
| UB.

Arguments Next {S A} a s.
Arguments Return {S A} b s.
Arguments Throw {S A} s.
Arguments UB {S A}.

Definition M (S A : Type) : Type := S -> result S A.

Definition ret {S A} (a : A) : M S A := fun s => Next a s.

Definition bind {S A B} (c : M S A) (k : A -> M S B) : M S B :=
  fun s =>
    match c s with
    | Next a s' => k a s'
    | Return b s' => Return b s'
    | Throw s' => Throw s'
    | UB => UB
    end.

Notation "x <- c1 ;; c2" := (bind c1 (fun x => c2))
  (at level 61, c1 at next level, right associativity).
Notation "c1 ;; c2" := (bind c1 (fun _ => c2))
  (at level 61, right associativity).

Definition get {S} : M S S := fun s => Next s s.
Definition modify {S} (f : S -> S) : M S unit := fun s => Next tt (f s).
Definition return_ {S A} (b : bool) : M S A := fun s => Return b s.
Definition throw {S A} : M S A := fun s => Throw s.
Definition undefined {S A} : M S A := fun _ => UB.

(** [if (!ok) return false;] *)
Definition check {S} (ok : bool) : M S unit :=
  if ok then ret tt else return_ false.

(** [if (c) body] *)
Definition when {S} (c : bool) (body : M S unit) : M S unit :=
  if c then body else ret tt.

(** What a caller sees of a member function. *)
Inductive outcome (S : Type) :=
| Returned (b : bool) (s : S)
| Thrown (s : S)
| Undefined.

Arguments Returned {S} b s.
Arguments Thrown {S} s.
Arguments Undefined {S}.

Definition run {S} (body : M S bool) (s : S) : outcome S :=
  match body s with
  | Next b s' => Returned b s'
  | Return b s' => Returned b s'
  | Throw s' => Thrown s'
  | UB => Undefined
  end.

(** A call from inside another member function: the callee's [return] ends
    the callee only. *)
Definition call {S} (f : S -> outcome S) : M S bool :=
  fun s =>
    match f s with
    | Returned b s' => Next b s'
    | Thrown s' => Throw s'
    | Undefined => UB
    end.

(** [Q] holds of the way a member function ended: with [Some b] when it
    returned [b], with [None] when an exception escaped.  Nothing is said of
    undefined behaviour. *)
Definition post {S} (o : outcome S) (Q : option bool -> S -> Prop) : Prop :=
  match o with
  | Returned b s => Q (Some b) s
  | Thrown s => Q None s
  | Undefined => True
  end.

(** The same for a computation: [Qn] when it goes on, [Qx] when it leaves
    the function. *)
Definition wp {S A} (c : M S A) (Qn : A -> S -> Prop)
    (Qx : option bool -> S -> Prop) (s : S) : Prop :=
  match c s with
  | Next a s' => Qn a s'
  | Return b s' => Qx (Some b) s'
  | Throw s' => Qx None s'
  | UB => True
  end.

(** The member function returned, and [Q] holds of the flag and of the
    state it returned with. *)
Definition returns {S} (o : outcome S) (Q : bool -> S -> Prop) : Prop :=
  match o with
  | Returned b s => Q b s
  | Thrown _ => False
  | Undefined => False
  end.

(** ** Containers *)

Definition front {S T} (q : list T) : M S T :=
  match q with
  | [] => undefined
  | x :: _ => ret x
  end.

Definition pop_front {S T} (q : list T) : M S (list T) :=
  match q with
  | [] => undefined
  | _ :: q' => ret q'
  end.

Fixpoint back_opt {T} (q : list T) : option T :=
  match q with
  | [] => None
  | [x] => Some x
  | _ :: q' => back_opt q'
  end.

Definition back {S T} (q : list T) : M S T :=
  match back_opt q with
  | None => undefined
  | Some x => ret x
  end.

Definition push_back {T} (q : list T) (x : T) : list T := q ++ [x].

(** [q[i]]: no bounds check. *)
Definition index {S T} (q : list T) (i : Z) : M S T :=
  if (i <? 0)%Z then undefined
  else match nth_error q (Z.to_nat i) with
       | Some x => ret x
       | None => undefined
       end.

(** [q.at(i)]: throws [std::out_of_range]. *)
Definition at_ {S T} (q : list T) (i : Z) : M S T :=
  if (i <? 0)%Z then throw
  else match nth_error q (Z.to_nat i) with
       | Some x => ret x
       | None => throw
       end.

Definition empty {T} (q : list T) : bool :=
  match q with
  | [] => true
  | _ :: _ => false
  end.

Definition size {T} (q : list T) : Z := Z.of_nat (length q).

(** [q.pop_front(); q.push_back(q.back());] *)
Definition pop_push {S T} (q : list T) : M S (list T) :=
  q1 <- pop_front q ;;
  b <- back q1 ;;
  ret (push_back q1 b).

(** The loop [for (auto& mergePoint : m_mergePoints) mergePoint--;] followed
    by [if (m_mergePoints[0] == 0) m_mergePoints.pop_front();], under the
    guard [!m_mergePoints.empty()]. *)
Definition decrementMergePoints (mergePoints : list Z) : list Z :=
  match mergePoints with
  | [] => []
  | _ :: _ =>
      match map (fun mergePoint => wrap (mergePoint - 1)) mergePoints with
      | m0 :: rest => if (m0 =? 0)%Z then rest else m0 :: rest
      | [] => []
      end
  end.

(** The merge points are strictly ascending. *)
Definition strictly_ascending (l : list Z) : Prop := Sorted Z.lt l.

(** What is left of the merge points [l] after [n] ticks: the entries
    greater than [n], each lowered by [n]. *)
Definition surviving (n : Z) (l : list Z) : list Z :=
  map (fun m => (m - n)%Z) (filter (fun m => (n <? m)%Z) l).

(** Between two ticks the merge points are strictly ascending [size_t]
    values, none of which is zero (an entry that reaches zero is dropped). *)
Definition valid_mergePoints (l : list Z) : Prop :=
  strictly_ascending l /\ Forall (fun m => (1 <= m < 2 ^ 64)%Z) l.

(** The number of joint position references sent to the robot so far. *)
Fixpoint commandsSent (l : list Event) : nat :=
  match l with
  | [] => 0
  | SetDirectPositionReferences :: l' => S (commandsSent l')
  | _ :: l' => commandsSent l'
  end.

(** The step-adaptation runs logged so far, by the block that made them. *)
Fixpoint adaptations (l : list Event) : list Trigger :=
  match l with
  | [] => []
  | RunStepAdaptator trigger _ _ :: l' => trigger :: adaptations l'
  | _ :: l' => adaptations l'
  end.

(** ** The module's state *)

Section State.

(** [iDynTree::Transform] and [iDynTree::Twist] are only stored and handed
    on. *)
Context {Transform Twist : Type}.

(** The time-indexed reference queues. *)
Record Buffers := mkBuffers {
  m_leftTrajectory : list Transform;
  m_rightTrajectory : list Transform;
  m_leftTwistTrajectory : list Twist;
  m_rightTwistTrajectory : list Twist;
  m_leftInContact : list bool;
  m_rightInContact : list bool;
  m_isLeftFixedFrame : list bool;
  m_DCMPositionDesired : list Vector2;
  m_DCMVelocityDesired : list Vector2;
  m_comHeightTrajectory : list R;
  m_comHeightVelocity : list R
}.

(** The options read once by [configure]. *)
Record Config := mkConfig {
  m_useStepAdaptation : bool;
  m_useMPC : bool;
  m_useQPIK : bool;
  m_useOSQP : bool;
  m_useZMPFilter : bool;
  m_dumpData : bool
}.

(** The members of [WalkingModule] that the tick reads or writes.  The
    collaborators behind the [unique_ptr] members are taken to be set, as
    they are once [configure] has succeeded.  The merge points and the merge
    counter are [size_t] values; the tick counter [indexmilad] is taken to
    be an [int].  [events] is the log of the calls made to the
    collaborators. *)
Record t := mk {
  m_robotState : WalkingFSM;
  buffers : Buffers;
  m_mergePoints : list Z;
  m_newTrajectoryRequired : bool;
  m_newTrajectoryMergeCounter : Z;
  m_desiredPosition : Vector2;
  m_time : R;
  m_dT : R;
  m_firstStep : bool;
  indexmilad : Z;
  config : Config;
  events : list Event
}.

Definition set_robotState (v : WalkingFSM) (s : t) : t :=
  mk v (buffers s) (m_mergePoints s) (m_newTrajectoryRequired s)
     (m_newTrajectoryMergeCounter s) (m_desiredPosition s) (m_time s) (m_dT s)
     (m_firstStep s) (indexmilad s) (config s) (events s).

Definition set_buffers (v : Buffers) (s : t) : t :=
  mk (m_robotState s) v (m_mergePoints s) (m_newTrajectoryRequired s)
     (m_newTrajectoryMergeCounter s) (m_desiredPosition s) (m_time s) (m_dT s)
     (m_firstStep s) (indexmilad s) (config s) (events s).

Definition set_mergePoints (v : list Z) (s : t) : t :=
  mk (m_robotState s) (buffers s) v (m_newTrajectoryRequired s)
     (m_newTrajectoryMergeCounter s) (m_desiredPosition s) (m_time s) (m_dT s)
     (m_firstStep s) (indexmilad s) (config s) (events s).

Definition set_newTrajectoryRequired (v : bool) (s : t) : t :=
  mk (m_robotState s) (buffers s) (m_mergePoints s) v
     (m_newTrajectoryMergeCounter s) (m_desiredPosition s) (m_time s) (m_dT s)
     (m_firstStep s) (indexmilad s) (config s) (events s).

Definition set_newTrajectoryMergeCounter (v : Z) (s : t) : t :=
  mk (m_robotState s) (buffers s) (m_mergePoints s) (m_newTrajectoryRequired s)
     v (m_desiredPosition s) (m_time s) (m_dT s)
     (m_firstStep s) (indexmilad s) (config s) (events s).

Definition set_desiredPosition (v : Vector2) (s : t) : t :=
  mk (m_robotState s) (buffers s) (m_mergePoints s) (m_newTrajectoryRequired s)
     (m_newTrajectoryMergeCounter s) v (m_time s) (m_dT s)
     (m_firstStep s) (indexmilad s) (config s) (events s).

Definition set_time (v : R) (s : t) : t :=
  mk (m_robotState s) (buffers s) (m_mergePoints s) (m_newTrajectoryRequired s)
     (m_newTrajectoryMergeCounter s) (m_desiredPosition s) v (m_dT s)
     (m_firstStep s) (indexmilad s) (config s) (events s).

Definition set_firstStep (v : bool) (s : t) : t :=
  mk (m_robotState s) (buffers s) (m_mergePoints s) (m_newTrajectoryRequired s)
     (m_newTrajectoryMergeCounter s) (m_desiredPosition s) (m_time s) (m_dT s)
     v (indexmilad s) (config s) (events s).

Definition set_indexmilad (v : Z) (s : t) : t :=
  mk (m_robotState s) (buffers s) (m_mergePoints s) (m_newTrajectoryRequired s)
     (m_newTrajectoryMergeCounter s) (m_desiredPosition s) (m_time s) (m_dT s)
     (m_firstStep s) v (config s) (events s).

Definition log (e : Event) (s : t) : t :=
  mk (m_robotState s) (buffers s) (m_mergePoints s) (m_newTrajectoryRequired s)
     (m_newTrajectoryMergeCounter s) (m_desiredPosition s) (m_time s) (m_dT s)
     (m_firstStep s) (indexmilad s) (config s) (e :: events s).

(** ** [propagateTime] and [advanceReferenceSignals] *)

Definition propagateTime : M t unit :=
  modify (fun s => set_time (m_time s + m_dT s) s).

Definition advanceReferenceSignals_body : M t bool :=
  s <- get ;;
  let b := buffers s in
  if (empty (m_leftTrajectory b)
      || empty (m_rightTrajectory b)
      || empty (m_leftInContact b)
      || empty (m_rightInContact b)
      || empty (m_DCMPositionDesired b)
      || empty (m_DCMVelocityDesired b)
      || empty (m_comHeightTrajectory b))%bool
  then return_ false
  else
    rightTrajectory <- pop_push (m_rightTrajectory b) ;;
    leftTrajectory <- pop_push (m_leftTrajectory b) ;;
    rightTwistTrajectory <- pop_push (m_rightTwistTrajectory b) ;;
    leftTwistTrajectory <- pop_push (m_leftTwistTrajectory b) ;;
    rightInContact <- pop_push (m_rightInContact b) ;;
    leftInContact <- pop_push (m_leftInContact b) ;;
    isLeftFixedFrame <- pop_push (m_isLeftFixedFrame b) ;;
    DCMPositionDesired <- pop_push (m_DCMPositionDesired b) ;;
    DCMVelocityDesired <- pop_push (m_DCMVelocityDesired b) ;;
    comHeightTrajectory <- pop_push (m_comHeightTrajectory b) ;;
    comHeightVelocity <- pop_push (m_comHeightVelocity b) ;;
    modify (set_buffers
              (mkBuffers leftTrajectory rightTrajectory
                         leftTwistTrajectory rightTwistTrajectory
                         leftInContact rightInContact isLeftFixedFrame
                         DCMPositionDesired DCMVelocityDesired
                         comHeightTrajectory comHeightVelocity)) ;;
    modify (fun s => set_mergePoints (decrementMergePoints (m_mergePoints s)) s) ;;
    ret true.

Definition advanceReferenceSignals : t -> outcome t :=
  run advanceReferenceSignals_body.

(** [n] consecutive calls; the first one that does not return [true] ends
    the sequence. *)
Fixpoint advanceMany (n : nat) (s : t) : outcome t :=
  match n with
  | O => Returned true s
  | S n' =>
      match advanceReferenceSignals s with
      | Returned true s' => advanceMany n' s'
      | o => o
      end
  end.

(** ** [setPlannerInput] *)

Definition setPlannerInput_body (x y : R) : M t bool :=
  s <- get ;;
  match m_mergePoints s with
  | [] =>
      l <- front (m_leftInContact (buffers s)) ;;
      r <- (if l : bool then front (m_rightInContact (buffers s)) else ret false) ;;
      check (l && r) ;;
      when (m_newTrajectoryRequired s) (return_ true) ;;
      modify (set_newTrajectoryMergeCounter 20)
  | mergePoints_front :: rest =>
      if (20 <? mergePoints_front)%Z then
        modify (set_newTrajectoryMergeCounter mergePoints_front)
      else
        match rest with
        | mergePoints_1 :: _ =>
            when (m_newTrajectoryRequired s) (return_ true) ;;
            modify (set_newTrajectoryMergeCounter mergePoints_1)
        | [] =>
            when (m_newTrajectoryRequired s) (return_ true) ;;
            modify (set_newTrajectoryMergeCounter 20)
        end
  end ;;
  modify (set_desiredPosition (x, y)) ;;
  modify (set_newTrajectoryRequired true) ;;
  ret true.

Definition setPlannerInput (x y : R) : t -> outcome t :=
  run (setPlannerInput_body x y).

(** ** The collaborators of one tick

    What the planner hands over when [updateTrajectories] reads it. *)
Record Planned := mkPlanned {
  isTrajectoryComputed : bool;
  p_leftTrajectory : list Transform;
  p_rightTrajectory : list Transform;
  p_leftTwistTrajectory : list Twist;
  p_rightTwistTrajectory : list Twist;
  p_leftInContact : list bool;
  p_rightInContact : list bool;
  p_isLeftFixedFrame : list bool;
  p_DCMPositionDesired : list Vector2;
  p_DCMVelocityDesired : list Vector2;
  p_comHeightTrajectory : list R;
  p_comHeightVelocity : list R;
  p_mergePoints : list Z
}.

(** The answers of the robot, the planner, the controllers and the solvers
    during one call of [updateModule], in the order in which the tick asks
    for them.  A [bool] is the success flag of the call of that name; an
    [option] is a call that also yields a value.  The helpers
    [evaluateCoM], [evaluateDCM], [evaluateZMP] and [solveQPIK], which only
    forward to the kinematics and to the solver, are taken by their
    result. *)
Record TickEnv := mkTickEnv {
  checkMotionDone : option bool;
  switchToControlMode : bool;
  desiredUnicyclePosition : option Vector2;
  generator_updateTrajectories : bool;
  planned : Planned;
  usingGainScheduling : bool;
  updatePhases : bool;
  getFeedbacks : bool;
  evaluateWorldToBaseTransformation : bool;
  setInternalRobotState : bool;
  evaluateCoM : bool;
  evaluateDCM : option Vector2;
  evaluateZMP : option Vector2;
  ZMPFilter_filt : Vector2 -> Vector2;
  integrateModel : bool;
  getCoMPosition : bool;
  getCoMVelocity : bool;
  getNominalCoMHeight : option R;
  getSwitchOverSwingRatio : option R;
  leftSteps : list Step;
  rightSteps : list Step;
  rightFootPhases : list Z;
  stepAdaptator_RunStepAdaptator : bool;
  stepAdaptator_solve : bool;
  stepAdaptator_getControllerOutput : bool;
  mpc_setConvexHullConstraint : bool;
  mpc_setFeedback : bool;
  mpc_setReferenceSignal : bool;
  mpc_solve : bool;
  mpc_getControllerOutput : bool;
  dcm_evaluateControl : bool;
  dcm_getControllerOutput : bool;
  zmp_evaluateControl : bool;
  zmp_getControllerOutput : bool;
  qpik_setInternalRobotState : bool;
  solveQPIK : bool;
  usingAdditionalRotationTarget : bool;
  updateIntertiaToWorldFrameRotation : bool;
  setFullModelFeedBack : bool;
  computeIK : bool;
  setDirectPositionReferences : bool
}.

(** [StdHelper::appendVectorToDeque(input, output, initPoint)] lives in the
    utilities, outside the modelled files: it is a parameter. *)
Context (appendVectorToDeque : forall T : Type, list T -> list T -> Z -> list T).

Context (env : TickEnv).

(** [WalkingModule::reset]: it only resets collaborators. *)
Definition reset : M t unit := modify (log Reset).

(** [WalkingModule::askNewTrajectories] *)
Definition askNewTrajectories (initTime : R) (isLeftSwinging : bool)
    (measuredTransform : Transform) (mergePoint : Z) (desiredPosition : Vector2)
    : t -> outcome t :=
  run (s <- get ;;
       check (negb (size (m_DCMPositionDesired (buffers s)) <=? mergePoint)%Z) ;;
       _ <- index (m_DCMPositionDesired (buffers s)) mergePoint ;;
       _ <- index (m_DCMVelocityDesired (buffers s)) mergePoint ;;
       modify (log (AskNewTrajectories mergePoint)) ;;
       check (generator_updateTrajectories env) ;;
       ret true).

(** [WalkingModule::updateTrajectories] *)
Definition updateTrajectories (mergePoint : Z) : t -> outcome t :=
  run (check (isTrajectoryComputed (planned env)) ;;
       s <- get ;;
       let b := buffers s in
       let p := planned env in
       modify (set_buffers
         (mkBuffers
            (appendVectorToDeque _ (p_leftTrajectory p) (m_leftTrajectory b) mergePoint)
            (appendVectorToDeque _ (p_rightTrajectory p) (m_rightTrajectory b) mergePoint)
            (appendVectorToDeque _ (p_leftTwistTrajectory p) (m_leftTwistTrajectory b) mergePoint)
            (appendVectorToDeque _ (p_rightTwistTrajectory p) (m_rightTwistTrajectory b) mergePoint)
            (appendVectorToDeque _ (p_leftInContact p) (m_leftInContact b) mergePoint)
            (appendVectorToDeque _ (p_rightInContact p) (m_rightInContact b) mergePoint)
            (appendVectorToDeque _ (p_isLeftFixedFrame p) (m_isLeftFixedFrame b) mergePoint)
            (appendVectorToDeque _ (p_DCMPositionDesired p) (m_DCMPositionDesired b) mergePoint)
            (appendVectorToDeque _ (p_DCMVelocityDesired p) (m_DCMVelocityDesired b) mergePoint)
            (appendVectorToDeque _ (p_comHeightTrajectory p) (m_comHeightTrajectory b) mergePoint)
            (appendVectorToDeque _ (p_comHeightVelocity p) (m_comHeightVelocity b) mergePoint))) ;;
       mergePoints <- pop_front (p_mergePoints p) ;;
       modify (set_mergePoints mergePoints) ;;
       ret true).

(** [WalkingModule::updateFKSolver] *)
Definition updateFKSolver : t -> outcome t :=
  run (s <- get ;;
       _ <- front (m_leftTrajectory (buffers s)) ;;
       _ <- front (m_rightTrajectory (buffers s)) ;;
       _ <- front (m_isLeftFixedFrame (buffers s)) ;;
       check (evaluateWorldToBaseTransformation env) ;;
       check (setInternalRobotState env) ;;
       ret true).

(** ** [updateModule]: the branch of the state [Preparing] *)

Definition failPreparing : M t unit :=
  reset ;;
  modify (set_robotState Stopped) ;;
  return_ true.

Definition updateModule_Preparing : M t unit :=
  match checkMotionDone env with
  | None => failPreparing
  | Some motionDone =>
      when motionDone
        (when (negb (switchToControlMode env)) failPreparing ;;
         modify (log SetDirectPositionReferences) ;;
         when (negb (setDirectPositionReferences env)) failPreparing ;;
         s <- get ;;
         _ <- front (m_DCMPositionDesired (buffers s)) ;;
         _ <- front (m_DCMPositionDesired (buffers s)) ;;
         modify (set_robotState Prepared) ;;
         modify (set_indexmilad 0))
  end.

(** ** [updateModule]: the branch of the state [Walking]

    From the top of the branch to the update of the gain scheduling. *)
Definition tickSchedule : M t unit :=
  s <- get ;;
  when (INT_MAX <=? indexmilad s)%Z undefined ;;
  modify (set_indexmilad (indexmilad s + 1)) ;;
  match desiredUnicyclePosition env with
  | Some (x, y) =>
      ok <- call (setPlannerInput x y) ;;
      check ok
  | None => ret tt
  end ;;
  s <- get ;;
  mergePoints_front <- front (m_mergePoints s) ;;
  when ((mergePoints_front =? 21)%Z
        && match desiredUnicyclePosition env with None => true | Some _ => false end)
    (ok <- call (setPlannerInput (fst (m_desiredPosition s)) (snd (m_desiredPosition s))) ;;
     check ok) ;;
  s <- get ;;
  when (m_newTrajectoryRequired s)
    (when (m_newTrajectoryMergeCounter s =? 20)%Z
       (let initTimeTrajectory :=
          m_time s + IZR (m_newTrajectoryMergeCounter s) * m_dT s in
        isLeftFixed <- front (m_isLeftFixedFrame (buffers s)) ;;
        measuredTransform <-
          (if isLeftFixed : bool
           then index (m_rightTrajectory (buffers s)) (m_newTrajectoryMergeCounter s)
           else index (m_leftTrajectory (buffers s)) (m_newTrajectoryMergeCounter s)) ;;
        ok <- call (askNewTrajectories initTimeTrajectory (negb isLeftFixed)
                      measuredTransform (m_newTrajectoryMergeCounter s)
                      (m_desiredPosition s)) ;;
        check ok) ;;
     when (m_newTrajectoryMergeCounter s =? 2)%Z
       (ok <- call (updateTrajectories (m_newTrajectoryMergeCounter s)) ;;
        check ok ;;
        modify (set_newTrajectoryRequired false)) ;;
     modify (fun s' => set_newTrajectoryMergeCounter
                         (wrap (m_newTrajectoryMergeCounter s' - 1)) s') ;;
     modify (set_indexmilad 0)) ;;
  when (usingGainScheduling env) (check (updatePhases env)).

(** The nominal and current values handed to the step adaptation, from the
    step that is adapted ([next]), the last step of the other foot
    ([other]) and the measurements. *)
Definition adaptationInputs (omega switchOverSwingRatio : R) (next other : Step)
    (nominalDCM : Vector2) (measuredZMP measuredDCM : Vector2) : Vector5 * Vector3 :=
  let stepTiming := (impactTime next - impactTime other) / (1 + switchOverSwingRatio) in
  let sigma := exp (omega * stepTiming) in
  let nextStepPosition := fst (position next) in
  let stepLength := fst (position next) - fst (position other) in
  let nominalDCMOffset := stepLength / (exp (omega * stepTiming) - 1) in
  (mkVector5 nextStepPosition sigma nominalDCMOffset (fst nominalDCM) omega,
   mkVector3 (fst measuredZMP) (fst measuredDCM) 0).

(** One of the two step-adaptation blocks, after its guard. *)
Definition adaptStep (trigger : Trigger) (omega switchOverSwingRatio : R)
    (swinging standing : list Step) (measuredZMP measuredDCM : Vector2) : M t unit :=
  next <- at_ swinging 1 ;;
  other <- at_ standing 0 ;;
  s <- get ;;
  mergePoints_front <- front (m_mergePoints s) ;;
  nominalDCM <- index (m_DCMPositionDesired (buffers s)) mergePoints_front ;;
  let '(nominalValues, currentValues) :=
    adaptationInputs omega switchOverSwingRatio next other nominalDCM
                     measuredZMP measuredDCM in
  when (m_useStepAdaptation (config s))
    (modify (log (RunStepAdaptator trigger nominalValues currentValues)) ;;
     check (stepAdaptator_RunStepAdaptator env) ;;
     check (stepAdaptator_solve env) ;;
     check (stepAdaptator_getControllerOutput env)).

(** From the feedback to the two step-adaptation blocks. *)
Definition tickFeedback : M t unit :=
  modify (log GetFeedbacks) ;;
  check (getFeedbacks env) ;;
  ok <- call updateFKSolver ;;
  check ok ;;
  check (evaluateCoM env) ;;
  measuredDCM <- match evaluateDCM env with
                 | Some v => ret v
                 | None => return_ false
                 end ;;
  measuredZMP <- match evaluateZMP env with
                 | Some v => ret v
                 | None => return_ false
                 end ;;
  s <- get ;;
  mergePoints_front <- front (m_mergePoints s) ;;
  _ <- at_ (m_DCMPositionDesired (buffers s)) mergePoints_front ;;
  let measuredZMP :=
    if m_useZMPFilter (config s) then ZMPFilter_filt env measuredZMP else measuredZMP in
  _ <- front (m_DCMPositionDesired (buffers s)) ;;
  check (integrateModel env) ;;
  check (getCoMPosition env) ;;
  check (getCoMVelocity env) ;;
  comHeight <- match getNominalCoMHeight env with
               | Some v => ret v
               | None => return_ false
               end ;;
  switchOverSwingRatio <- match getSwitchOverSwingRatio env with
                          | Some v => ret v
                          | None => return_ false
                          end ;;
  let omega := sqrt (981 / 100 / comHeight) in
  phase <- index (rightFootPhases env) (indexmilad s) ;;
  when ((2 =? phase)%Z && (1 <? size (rightSteps env))%Z)
    (adaptStep RightSwing omega switchOverSwingRatio
               (rightSteps env) (leftSteps env) measuredZMP measuredDCM) ;;
  when (false && (1 <? size (leftSteps env))%Z)
    (adaptStep LeftSwing omega switchOverSwingRatio
               (leftSteps env) (rightSteps env) measuredZMP measuredDCM).

(** The controllers and the inverse kinematics. *)
Definition tickControl : M t unit :=
  s <- get ;;
  (if m_useMPC (config s) then
     check (mpc_setConvexHullConstraint env) ;;
     check (mpc_setFeedback env) ;;
     check (mpc_setReferenceSignal env) ;;
     check (mpc_solve env) ;;
     check (mpc_getControllerOutput env)
   else
     _ <- front (m_DCMPositionDesired (buffers s)) ;;
     _ <- front (m_DCMVelocityDesired (buffers s)) ;;
     check (dcm_evaluateControl env) ;;
     check (dcm_getControllerOutput env)) ;;
  _ <- front (m_DCMVelocityDesired (buffers s)) ;;
  check (zmp_evaluateControl env) ;;
  check (zmp_getControllerOutput env) ;;
  _ <- front (m_comHeightTrajectory (buffers s)) ;;
  _ <- front (m_comHeightVelocity (buffers s)) ;;
  _ <- front (m_leftTrajectory (buffers s)) ;;
  _ <- front (m_rightTrajectory (buffers s)) ;;
  (if m_useQPIK (config s) then
     check (qpik_setInternalRobotState env) ;;
     check (solveQPIK env)
   else
     when (usingAdditionalRotationTarget env)
       (check (updateIntertiaToWorldFrameRotation env) ;;
        check (setFullModelFeedBack env) ;;
        check (computeIK env))).

(** The joint command and the end of the tick. *)
Definition tickCommand : M t unit :=
  modify (log SetDirectPositionReferences) ;;
  check (setDirectPositionReferences env) ;;
  propagateTime ;;
  _ <- call advanceReferenceSignals ;;
  s <- get ;;
  when (m_firstStep s) (modify (set_firstStep false)).

Definition updateModule_Walking : M t unit :=
  tickSchedule ;;
  tickFeedback ;;
  tickControl ;;
  tickCommand.

(** [WalkingModule::updateModule] *)
Definition updateModule_body : M t bool :=
  s <- get ;;
  match m_robotState s with
  | Preparing => updateModule_Preparing
  | Walking => updateModule_Walking
  | _ => ret tt
  end ;;
  ret true.

Definition updateModule : t -> outcome t := run updateModule_body.

(** The guard of the right-swing block, read on the state in which the tick
    ends: the phase table of the right foot holds the code [2] at
    [indexmilad], more than one right step is planned, and the step
    adaptation is switched on. *)
Definition rightSwingTrigger (s : t) : Prop :=
  (0 <= indexmilad s)%Z
  /\ nth_error (rightFootPhases env) (Z.to_nat (indexmilad s)) = Some 2%Z
  /\ (1 < length (rightSteps env))%nat
  /\ m_useStepAdaptation (config s) = true.

(** What the scheduling part of the tick leaves alone: the state of the
    FSM, the options, and the joint commands and step-adaptation runs logged
    so far. *)
Definition keeps (s s' : t) : Prop :=
  m_robotState s' = m_robotState s
  /\ config s' = config s
  /\ commandsSent (events s') = commandsSent (events s)
  /\ adaptations (events s') = adaptations (events s).

(** Between [s] and [s'] the step adaptation was not run, or it was run
    once, by the right-swing block, with its guard true. *)
Definition adaptedBy (s s' : t) : Prop :=
  adaptations (events s') = adaptations (events s)
  \/ (adaptations (events s') = RightSwing :: adaptations (events s)
      /\ rightSwingTrigger s').

(** What the part of the tick after the scheduling leaves alone. *)
Definition framed (s s' : t) : Prop :=
  m_robotState s' = m_robotState s
  /\ config s' = config s
  /\ indexmilad s' = indexmilad s.

(** ** Predicates on the buffers *)

(** Every queue holds at least [n] samples. *)
Definition buffers_at_least (n : nat) (b : Buffers) : Prop :=
  (n <= length (m_leftTrajectory b))%nat
  /\ (n <= length (m_rightTrajectory b))%nat
  /\ (n <= length (m_leftTwistTrajectory b))%nat
  /\ (n <= length (m_rightTwistTrajectory b))%nat
  /\ (n <= length (m_leftInContact b))%nat
  /\ (n <= length (m_rightInContact b))%nat
  /\ (n <= length (m_isLeftFixedFrame b))%nat
  /\ (n <= length (m_DCMPositionDesired b))%nat
  /\ (n <= length (m_DCMVelocityDesired b))%nat
  /\ (n <= length (m_comHeightTrajectory b))%nat
  /\ (n <= length (m_comHeightVelocity b))%nat.

(** Queue by queue, [b'] is as long as [b]. *)
Definition same_lengths (b b' : Buffers) : Prop :=
  length (m_leftTrajectory b') = length (m_leftTrajectory b)
  /\ length (m_rightTrajectory b') = length (m_rightTrajectory b)
  /\ length (m_leftTwistTrajectory b') = length (m_leftTwistTrajectory b)
  /\ length (m_rightTwistTrajectory b') = length (m_rightTwistTrajectory b)
  /\ length (m_leftInContact b') = length (m_leftInContact b)
  /\ length (m_rightInContact b') = length (m_rightInContact b)
  /\ length (m_isLeftFixedFrame b') = length (m_isLeftFixedFrame b)
  /\ length (m_DCMPositionDesired b') = length (m_DCMPositionDesired b)
  /\ length (m_DCMVelocityDesired b') = length (m_DCMVelocityDesired b)
  /\ length (m_comHeightTrajectory b') = length (m_comHeightTrajectory b)
  /\ length (m_comHeightVelocity b') = length (m_comHeightVelocity b).

(** [s'] has the FSM state, the clock, the period and the options of [s]. *)
Definition quiet (s s' : t) : Prop :=
  m_robotState s' = m_robotState s
  /\ m_time s' = m_time s
  /\ m_dT s' = m_dT s
  /\ config s' = config s.

(** [s'] has the pending flag and the merge counter of [s]. *)
Definition sameRequest (s s' : t) : Prop :=
  m_newTrajectoryRequired s' = m_newTrajectoryRequired s
  /\ m_newTrajectoryMergeCounter s' = m_newTrajectoryMergeCounter s.

(** One of the seven queues tested by the guard of
    [advanceReferenceSignals] is empty. *)
Definition checkedEmpty (b : Buffers) : Prop :=
  m_leftTrajectory b = []
  \/ m_rightTrajectory b = []
  \/ m_leftInContact b = []
  \/ m_rightInContact b = []
  \/ m_DCMPositionDesired b = []
  \/ m_DCMVelocityDesired b = []
  \/ m_comHeightTrajectory b = [].

(** [s'] differs from [s] in the buffers and in the merge points at most. *)
Definition sameOutsideBuffers (s s' : t) : Prop :=
  m_robotState s' = m_robotState s
  /\ m_newTrajectoryRequired s' = m_newTrajectoryRequired s
  /\ m_newTrajectoryMergeCounter s' = m_newTrajectoryMergeCounter s
  /\ m_desiredPosition s' = m_desiredPosition s
  /\ m_time s' = m_time s
  /\ m_dT s' = m_dT s
  /\ m_firstStep s' = m_firstStep s
  /\ indexmilad s' = indexmilad s
  /\ config s' = config s
  /\ events s' = events s.

(** [q'] is [q] after [n] rounds of pop-front and push-back of the back
    sample: sample [i] of [q'] is sample [i + n] of [q], and the last sample
    of [q] once [i + n] runs past the end. *)
Definition shifted {T : Type} (n : nat) (q q' : list T) : Prop :=
  length q' = length q
  /\ forall i : nat, (i < length q)%nat ->
       nth_error q' i = nth_error q (Nat.min (i + n) (length q - 1)).

Definition buffers_shifted (n : nat) (b b' : Buffers) : Prop :=
  shifted n (m_leftTrajectory b) (m_leftTrajectory b')
  /\ shifted n (m_rightTrajectory b) (m_rightTrajectory b')
  /\ shifted n (m_leftTwistTrajectory b) (m_leftTwistTrajectory b')
  /\ shifted n (m_rightTwistTrajectory b) (m_rightTwistTrajectory b')
  /\ shifted n (m_leftInContact b) (m_leftInContact b')
  /\ shifted n (m_rightInContact b) (m_rightInContact b')
  /\ shifted n (m_isLeftFixedFrame b) (m_isLeftFixedFrame b')
  /\ shifted n (m_DCMPositionDesired b) (m_DCMPositionDesired b')
  /\ shifted n (m_DCMVelocityDesired b) (m_DCMVelocityDesired b')
  /\ shifted n (m_comHeightTrajectory b) (m_comHeightTrajectory b')
  /\ shifted n (m_comHeightVelocity b) (m_comHeightVelocity b').

(** ** The commands of the module *)

Definition WalkingFSM_eqb (a b : WalkingFSM) : bool :=
  match a, b with
  | Configured, Configured => true
  | Preparing, Preparing => true
  | Prepared, Prepared => true
  | Walking, Walking => true
  | Paused, Paused => true
  | Stopped, Stopped => true
  | _, _ => false
  end.

(** The answers of the collaborators during a command, as in [TickEnv]. *)
Record CommandEnv := mkCommandEnv {
  getFeedbacksRaw : bool;
  setBaseOnTheFly : bool;
  fk_setInternalRobotState : bool;
  generator_generateFirstTrajectories : bool;
  pid_usingGainScheduling : bool;
  pid_reset : bool;
  ik_setFullModelFeedBack : bool;
  ik_usingAdditionalRotationTarget : bool;
  ik_updateIntertiaToWorldFrameRotation : bool;
  ik_computeIK : bool;
  switchToPositionControl : bool;
  setPositionReferences : bool
}.

Context (cenv : CommandEnv).

(** [WalkingModule::generateFirstTrajectories], both overloads: they differ
    in the argument handed to the planner only. *)
Definition generateFirstTrajectories : t -> outcome t :=
  run (check (generator_generateFirstTrajectories cenv) ;;
       ok <- call (updateTrajectories 0) ;;
       check ok ;;
       modify (set_time 0) ;;
       ret true).

(** [WalkingModule::prepareRobot] *)
Definition prepareRobot (onTheFly : bool) : t -> outcome t :=
  run (s <- get ;;
       when (negb (WalkingFSM_eqb (m_robotState s) Configured)
             && negb (WalkingFSM_eqb (m_robotState s) Stopped))
         (return_ false) ;;
       check (getFeedbacksRaw cenv) ;;
       (if onTheFly then
          check (setBaseOnTheFly cenv) ;;
          check (fk_setInternalRobotState cenv) ;;
          ok <- call generateFirstTrajectories ;;
          check ok
        else
          ok <- call generateFirstTrajectories ;;
          check ok) ;;
       when (pid_usingGainScheduling cenv) (check (pid_reset cenv)) ;;
       check (ik_setFullModelFeedBack cenv) ;;
       s <- get ;;
       _ <- front (m_DCMPositionDesired (buffers s)) ;;
       _ <- front (m_comHeightTrajectory (buffers s)) ;;
       when (ik_usingAdditionalRotationTarget cenv)
         (_ <- front (m_leftTrajectory (buffers s)) ;;
          _ <- front (m_rightTrajectory (buffers s)) ;;
          check (ik_updateIntertiaToWorldFrameRotation cenv)) ;;
       _ <- front (m_leftTrajectory (buffers s)) ;;
       _ <- front (m_rightTrajectory (buffers s)) ;;
       check (ik_computeIK cenv) ;;
       check (switchToPositionControl cenv) ;;
       check (setPositionReferences cenv) ;;
       modify (set_robotState Preparing) ;;
       ret true).

(** [WalkingModule::resetZMPFilters] *)
Definition resetZMPFilters : t -> outcome t :=
  run (check (getFeedbacksRaw cenv) ;;
       ok <- call updateFKSolver ;;
       check ok ;;
       match evaluateZMP env with
       | Some _ => ret tt
       | None => return_ false
       end ;;
       ret true).

(** [WalkingModule::startWalking]; the result of [resetZMPFilters] is not
    looked at. *)
Definition startWalking : t -> outcome t :=
  run (s <- get ;;
       when (negb (WalkingFSM_eqb (m_robotState s) Prepared)
             && negb (WalkingFSM_eqb (m_robotState s) Paused))
         (return_ false) ;;
       when (WalkingFSM_eqb (m_robotState s) Prepared)
         (_ <- call resetZMPFilters ;;
          ret tt) ;;
       modify (set_robotState Walking) ;;
       modify (set_firstStep true) ;;
       ret true).

(** [WalkingModule::setGoal] *)
Definition setGoal (x y : R) : t -> outcome t :=
  run (s <- get ;;
       when (negb (WalkingFSM_eqb (m_robotState s) Walking)) (return_ false) ;;
       call (setPlannerInput x y)).

(** [WalkingModule::pauseWalking] *)
Definition pauseWalking : t -> outcome t :=
  run (s <- get ;;
       when (negb (WalkingFSM_eqb (m_robotState s) Walking)) (return_ false) ;;
       modify (set_robotState Paused) ;;
       ret true).

(** [WalkingModule::stopWalking] *)
Definition stopWalking : t -> outcome t :=
  run (s <- get ;;
       when (negb (WalkingFSM_eqb (m_robotState s) Walking)) (return_ false) ;;
       reset ;;
       modify (set_robotState Stopped) ;;
       ret true).

(** What can be asked of the module: the commands of its RPC surface and the
    periodic tick. *)
Inductive Command :=
| CmdPrepare (onTheFly : bool)
| CmdStart
| CmdPause
| CmdStop
| CmdSetGoal (x y : R)
| CmdTick.

Definition step (c : Command) : t -> outcome t :=
  match c with
  | CmdPrepare onTheFly => prepareRobot onTheFly
  | CmdStart => startWalking
  | CmdPause => pauseWalking
  | CmdStop => stopWalking
  | CmdSetGoal x y => setGoal x y
  | CmdTick => updateModule
  end.

(** The moves of the FSM: [before] and [after] are equal, or the command is
    the one that owns the move. *)
Definition transition (c : Command) (before after : WalkingFSM) : Prop :=
  after = before
  \/ match c with
     | CmdPrepare _ => (before = Configured \/ before = Stopped) /\ after = Preparing
     | CmdStart => (before = Prepared \/ before = Paused) /\ after = Walking
     | CmdPause => before = Walking /\ after = Paused
     | CmdStop => before = Walking /\ after = Stopped
     | CmdSetGoal _ _ => False
     | CmdTick => before = Preparing /\ (after = Prepared \/ after = Stopped)
     end.

End State.

(** ** Sequences of commands

    Each command comes with the answers of the collaborators while it runs.
    A tick that returns [false] ends the module; the commands after it are
    not run. *)
Section Runs.

Context {Transform Twist : Type}.
Context (appendVectorToDeque : forall T : Type, list T -> list T -> Z -> list T).

Definition Request : Type :=
  (@TickEnv Transform Twist * CommandEnv * Command)%type.

Definition isTick (c : Command) : bool :=
  match c with
  | CmdTick => true
  | _ => false
  end.

Definition isPrepare (c : Command) : bool :=
  match c with
  | CmdPrepare _ => true
  | _ => false
  end.

Fixpoint runCommands (l : list Request) (s : @t Transform Twist)
    : outcome (@t Transform Twist) :=
  match l with
  | [] => Returned true s
  | (env, cenv, c) :: l' =>
      match step appendVectorToDeque env cenv c s with
      | Returned b s' =>
          if (isTick c && negb b)%bool then Returned false s'
          else runCommands l' s'
      | o => o
      end
  end.

End Runs.

(** ** The events of one tick

    [l] is empty or the single event [e]. *)
Definition optional (e : Event) (l : list Event) : Prop := l = [] \/ l = [e].

(** The shape of what a tick in the state [Walking] adds to the log, newest
    first: the joint command, the step-adaptation run, the feedback
    acquisition and the request to the planner, each at most once and in
    this order; nothing follows a missing feedback acquisition, and a tick
    that returned [true] has acquired the feedback and sent the command. *)
Definition tickTrace (completed : bool) (new : list Event) : Prop :=
  exists ask fb adapt cmd : list Event,
    new = cmd ++ adapt ++ fb ++ ask
    /\ optional (AskNewTrajectories 20) ask
    /\ optional GetFeedbacks fb
    /\ (adapt = [] \/ exists n c, adapt = [RunStepAdaptator RightSwing n c])
    /\ optional SetDirectPositionReferences cmd
    /\ (fb = [] -> adapt = [] /\ cmd = [])
    /\ (completed = true -> fb = [GetFeedbacks] /\ cmd = [SetDirectPositionReferences]).

(** ** [evaluateZMP] *)

(** [iDynTree::Wrench]: the force and the torque. *)
Record Wrench := mkWrench {
  getLinearVec3 : Vector3;
  getAngularVec3 : Vector3
}.

Definition scale3 (k : R) (p : Vector3) : Vector3 :=
  mkVector3 (k * v3_0 p) (k * v3_1 p) (k * v3_2 p).

Definition add3 (p q : Vector3) : Vector3 :=
  mkVector3 (v3_0 p + v3_0 q) (v3_1 p + v3_1 q) (v3_2 p + v3_2 q).

Section ZMP.

(** [m_FKSolver->getLeftFootToWorldTransform() * p] and the same for the
    right foot. *)
Context (leftFootToWorld rightFootToWorld : Vector3 -> Vector3).

(** The members read by [evaluateZMP]. *)
Context (FKSolverReady useZMPSaturation : bool) (thresholdFz epsilonZMP : R).

(** One foot of the branch with saturation: the local ZMP, the flag
    [zmp...Defined] and the saturated force.  [zmp0] is what the local
    variable holds before it is assigned. *)
Definition footZMPSaturated (wrench : Wrench) (zmp0 : Vector3) : Vector3 * R * R :=
  let saturatedFz := at3 (getLinearVec3 wrench) 2 in
  if Rlt_dec (at3 (getLinearVec3 wrench) 2) thresholdFz then (zmp0, 0, saturatedFz)
  else
    let '(ok, saturatedFz) := saturateFz saturatedFz thresholdFz in
    if ok : bool then
      (mkVector3
         ((- at3 (getAngularVec3 wrench) 1 * saturatedFz)
          / ((saturatedFz * saturatedFz) + epsilonZMP))
         ((at3 (getAngularVec3 wrench) 0 * saturatedFz)
          / ((saturatedFz * saturatedFz) + epsilonZMP))
         0,
       1, saturatedFz)
    else (zmp0, 0, saturatedFz).

(** One foot of the branch without saturation. *)
Definition footZMP (wrench : Wrench) (zmp0 : Vector3) : Vector3 * R :=
  if Rlt_dec (at3 (getLinearVec3 wrench) 2) (1 / 1000) then (zmp0, 0)
  else
    (mkVector3
       (- at3 (getAngularVec3 wrench) 1 / at3 (getLinearVec3 wrench) 2)
       (at3 (getAngularVec3 wrench) 0 / at3 (getLinearVec3 wrench) 2)
       0,
     1).

(** [WalkingModule::evaluateZMP]: [None] when it returns [false], the two
    components written to [zmp] otherwise. *)
Definition evaluateZMP_of (rightWrench leftWrench : Wrench)
    (zmpLeft0 zmpRight0 : Vector3) : option Vector2 :=
  if negb FKSolverReady then None
  else if useZMPSaturation then
    let '(zmpRight, zmpRightDefined, saturatedRFz) :=
      footZMPSaturated rightWrench zmpRight0 in
    let '(zmpLeft, zmpLeftDefined, saturatedLFz) :=
      footZMPSaturated leftWrench zmpLeft0 in
    let totalZ := saturatedLFz + saturatedRFz in
    if Rlt_dec totalZ (1 / 10) then None
    else
      let zmpLeft := leftFootToWorld zmpLeft in
      let zmpRight := rightFootToWorld zmpRight in
      let zmpWorld :=
        add3 (scale3 ((saturatedLFz * zmpLeftDefined) / totalZ) zmpLeft)
             (scale3 ((saturatedRFz * zmpRightDefined) / totalZ) zmpRight) in
      Some (v3_0 zmpWorld, v3_1 zmpWorld)
  else
    let '(zmpRight, zmpRightDefined) := footZMP rightWrench zmpRight0 in
    let '(zmpLeft, zmpLeftDefined) := footZMP leftWrench zmpLeft0 in
    let totalZ :=
      at3 (getLinearVec3 rightWrench) 2 + at3 (getLinearVec3 leftWrench) 2 in
    if Rlt_dec totalZ (1 / 10) then None
    else
      let zmpLeft := leftFootToWorld zmpLeft in
      let zmpRight := rightFootToWorld zmpRight in
      let zmpWorld :=
        add3 (scale3 ((at3 (getLinearVec3 leftWrench) 2 * zmpLeftDefined) / totalZ)
                     zmpLeft)
             (scale3 ((at3 (getLinearVec3 rightWrench) 2 * zmpRightDefined) / totalZ)
                     zmpRight) in
      Some (v3_0 zmpWorld, v3_1 zmpWorld).

End ZMP.

End WalkingModule.

(* ================================================================== *)
(** * Sample states *)
(* ================================================================== *)

Module Sample.

Import WalkingModule.

(** Buffers of [n] samples each, with both feet in contact. *)
Definition sampleBuffers (n : nat) : @Buffers unit unit :=
  mkBuffers (repeat tt n) (repeat tt n) (repeat tt n) (repeat tt n)
            (repeat true n) (repeat true n) (repeat true n)
            (repeat (0, 0) n) (repeat (0, 0) n) (repeat 0 n) (repeat 0 n).

Definition sampleConfig (useStepAdaptation : bool) : Config :=
  mkConfig useStepAdaptation false false false false false.

(** A walking robot with buffers of [n] samples, the given merge points, the
    given pending flag and the given merge counter. *)
Definition sampleState (n : nat) (mergePoints : list Z) (required : bool)
    (counter : Z) (useStepAdaptation : bool) : @t unit unit :=
  mk Walking (sampleBuffers n) mergePoints required counter (0, 0) 0 (1 / 100)
     false 0%Z (sampleConfig useStepAdaptation) [].

Definition samplePlanned : @Planned unit unit :=
  mkPlanned false [] [] [] [] [] [] [] [] [] [] [] [].

(** A tick in which every collaborator succeeds, except that the feedback
    acquisition answers [feedback]; the right foot is in the phase of code
    [2] at every index and two steps are planned for each foot. *)
Definition sampleEnv (feedback : bool) : @TickEnv unit unit :=
  mkTickEnv (Some true) true None true samplePlanned false true
            feedback
            true true true (Some (0, 0)) (Some (0, 0)) (fun v => v)
            true true true (Some (3 / 5)) (Some (1 / 2))
            [mkStep 0 (0, 0); mkStep 2 (2 / 5, 0)]
            [mkStep 1 (1 / 5, 0); mkStep 3 (3 / 5, 0)]
            [2; 2; 2; 2]%Z
            true true true
            true true true true true
            true true
            true true
            true true true true true true
            true.

(** [StdHelper::appendVectorToDeque] as a plain splice: keep the first
    [initPoint] samples of the queue and append the input. *)
Definition sampleAppend (T : Type) (input output : list T) (initPoint : Z) : list T :=
  firstn (Z.to_nat initPoint) output ++ input.

(** Buffers of three samples whose CoM height goes [1], [2], [3]. *)
Definition rampBuffers : @Buffers unit unit :=
  mkBuffers (repeat tt 3) (repeat tt 3) (repeat tt 3) (repeat tt 3)
            (repeat true 3) (repeat true 3) (repeat true 3)
            (repeat (0, 0) 3) (repeat (0, 0) 3) [1; 2; 3] (repeat 0 3).

Definition rampState : @t unit unit :=
  mk Walking rampBuffers [] false 0%Z (0, 0) 0 (1 / 100) false 0%Z
     (sampleConfig false) [].

(** A planner that has computed trajectories of [n] samples, with the merge
    points [0] and [30]. *)
Definition readyPlanned (n : nat) : @Planned unit unit :=
  mkPlanned true (repeat tt n) (repeat tt n) (repeat tt n) (repeat tt n)
            (repeat true n) (repeat true n) (repeat true n)
            (repeat (0, 0) n) (repeat (0, 0) n) (repeat (3 / 5) n) (repeat 0 n)
            [0; 30]%Z.

(** [sampleEnv true] with the planner [readyPlanned 40]. *)
Definition readyEnv : @TickEnv unit unit :=
  mkTickEnv (Some true) true None true (readyPlanned 40) false true
            true
            true true true (Some (0, 0)) (Some (0, 0)) (fun v => v)
            true true true (Some (3 / 5)) (Some (1 / 2))
            [mkStep 0 (0, 0); mkStep 2 (2 / 5, 0)]
            [mkStep 1 (1 / 5, 0); mkStep 3 (3 / 5, 0)]
            [2; 2; 2; 2]%Z
            true true true
            true true true true true
            true true
            true true
            true true true true true true
            true.

(** A configured module that has not been prepared yet: no trajectory in
    the buffers, no merge point. *)
Definition configuredState : @t unit unit :=
  mk Configured (sampleBuffers 0) [] false 0%Z (0, 0) 5 (1 / 100) false 0%Z
     (sampleConfig false) [].

(** Commands in which every collaborator succeeds; no gain scheduling and
    no additional rotation target. *)
Definition sampleCommandEnv : CommandEnv :=
  mkCommandEnv true true true true false true true false true true true true.

(** The wrenches of a stance: [fl] and [fr] newtons on the left and on the
    right foot, with a torque about the local [y] axis on the right one. *)
Definition sampleWrench (f ty : R) : Wrench :=
  mkWrench (mkVector3 0 0 f) (mkVector3 0 ty 0).

End Sample.

(* ================================================================== *)
(** * Properties of the step-adaptation problem *)
(* ================================================================== *)

Section QPFacts.

Import QPSolver.

Context (O : OsqpEigen).

(** Whatever the solver answers, the members written by the two setters are
    the freshly evaluated matrix and bounds. *)
Lemma tickConstraints_matrix (nominal : Vector5) (current : Vector3) (tol : Vector4)
    (s : t O) :
  m_constraintsMAtrix (tickConstraints O nominal current tol s)
  = evaluateConstraintsMatrix current.
Proof.
  unfold tickConstraints, setBoundsVectorOfConstraints, setConstraintsMatrix.
  repeat match goal with
         | |- context [if ?b then _ else _] => destruct b
         | |- context [match ?o with Some _ => _ | None => _ end] => destruct o
         end; reflexivity.
Qed.

Lemma tickConstraints_lower (nominal : Vector5) (current : Vector3) (tol : Vector4)
    (s : t O) :
  m_lowerBound (tickConstraints O nominal current tol s) = lowerBoundOf O current.
Proof.
  unfold tickConstraints, setBoundsVectorOfConstraints.
  repeat match goal with
         | |- context [if ?b then _ else _] => destruct b
         | |- context [match ?o with Some _ => _ | None => _ end] => destruct o
         end; reflexivity.
Qed.

Lemma tickConstraints_upper (nominal : Vector5) (current : Vector3) (tol : Vector4)
    (s : t O) :
  m_upperBound (tickConstraints O nominal current tol s)
  = upperBoundOf nominal current tol.
Proof.
  unfold tickConstraints, setBoundsVectorOfConstraints.
  repeat match goal with
         | |- context [if ?b then _ else _] => destruct b
         | |- context [match ?o with Some _ => _ | None => _ end] => destruct o
         end; reflexivity.
Qed.

(** The five rows, written out. *)
Lemma admitted_tickConstraints (nominal : Vector5) (current : Vector3) (tol : Vector4)
    (s : t O) (x : Vector3) :
  admitted O (tickConstraints O nominal current tol s) x <->
  (at3 x 0
   + ((at3 current 0 + at3 current 2) - at3 current 1 - at3 current 2 / 2) * at3 x 1
   + at3 x 2 = at3 current 2 / 2 + at3 current 0)
  /\ (- INFTY O <= at3 x 0 <= at5 nominal 0 + at4 tol 0)
  /\ (- INFTY O <= - at3 x 0 <= at5 nominal 0 - at4 tol 1)
  /\ (- INFTY O <= at3 x 1
      <= exp ((StepDuration nominal + at4 tol 2) * at5 nominal 4))
  /\ (- INFTY O <= - at3 x 1
      <= exp ((StepDuration nominal - at4 tol 2) * at5 nominal 4)).
Proof.
  unfold admitted.
  rewrite tickConstraints_matrix, tickConstraints_lower, tickConstraints_upper.
  unfold admits, row_apply, coeff, evaluateConstraintsMatrix, lowerBoundOf, upperBoundOf.
  split.
  - intros H.
    pose proof (H 0%nat ltac:(lia)) as H0.
    pose proof (H 1%nat ltac:(lia)) as H1.
    pose proof (H 2%nat ltac:(lia)) as H2.
    pose proof (H 3%nat ltac:(lia)) as H3.
    pose proof (H 4%nat ltac:(lia)) as H4.
    simpl in H0, H1, H2, H3, H4. simpl.
    repeat split; lra.
  - intros (E & Hz & Hz' & Hs & Hs') i Hi.
    destruct i as [|[|[|[|[|i]]]]]; try lia; simpl in *; lra.
Qed.

End QPFacts.

(** What the rows of the problem do enforce: the upper limits, and for the
    two rows of coefficient [-1] a lower limit that is the negated bound. *)
Lemma admitted_limits_as_built (O : QPSolver.OsqpEigen) (nominal : Vector5)
    (current : Vector3) (tol : Vector4) (s : QPSolver.t O) (x : Vector3) :
  QPSolver.admitted O (QPSolver.tickConstraints O nominal current tol s) x ->
  at3 x 0 <= at5 nominal 0 + at4 tol 0
  /\ at4 tol 1 - at5 nominal 0 <= at3 x 0
  /\ at3 x 1 <= exp ((QPSolver.StepDuration nominal + at4 tol 2) * at5 nominal 4)
  /\ - exp ((QPSolver.StepDuration nominal - at4 tol 2) * at5 nominal 4) <= at3 x 1.
Proof.
  intros H. apply admitted_tickConstraints in H.
  destruct H as (_ & Hz & Hz' & Hs & Hs'). repeat split; lra.
Qed.

(** C1.  On the inputs [nominal = (1, e, 0, 0, 2)] (nominal step duration
    [1/2]), [current = (0, 0, 0)] and tolerances [(1/10, 1/10, 1/4)], the
    problem built by [setConstraintsMatrix] and
    [setBoundsVectorOfConstraints] admits the point
    [(z, sigma, delta) = (-1/2, 1, 1/2)], although [z] is below
    [nominalNextPosition - zmpTolerance = 9/10] and [sigma] is below
    [exp ((nominalStepDuration - durationTolerance) * omega) = exp (1/2)]:
    the rows of coefficient [-1] carry the bounds [nominal - tolerance] and
    [exp (...)] with the wrong sign, so the stated lower limits are not
    enforced. *)
Theorem C1_lower_limits_not_enforced :
  let nominal := mkVector5 1 (exp 1) 0 0 2 in
  let current := mkVector3 0 0 0 in
  let tol := mkVector4 (1 / 10) (1 / 10) (1 / 4) 0 in
  let x := mkVector3 (- (1 / 2)) 1 (1 / 2) in
  QPSolver.StepDuration nominal = 1 / 2
  /\ QPSolver.admitted QPSolver.refOsqp
       (QPSolver.tickConstraints QPSolver.refOsqp nominal current tol QPSolver.refFresh) x
  /\ at3 x 0 < at5 nominal 0 - at4 tol 1
  /\ at3 x 1 < exp ((QPSolver.StepDuration nominal - at4 tol 2) * at5 nominal 4).
Proof.
  intros nominal current tol x.
  assert (HSD : QPSolver.StepDuration nominal = 1 / 2).
  { unfold QPSolver.StepDuration, nominal. simpl. rewrite ln_exp. lra. }
  split; [exact HSD|].
  assert (Hlo : 1 < exp ((1 / 2 - 1 / 4) * 2)).
  { rewrite <- exp_0 at 1. apply exp_increasing. lra. }
  assert (Hhi : 1 < exp ((1 / 2 + 1 / 4) * 2)).
  { rewrite <- exp_0 at 1. apply exp_increasing. lra. }
  split; [|split].
  - apply admitted_tickConstraints. rewrite HSD.
    unfold nominal, current, tol, x. simpl.
    repeat split; lra.
  - unfold nominal, tol, x. simpl. lra.
  - rewrite HSD. unfold nominal, tol, x. simpl. lra.
Qed.

(** C2.  Row 0 of the constraint matrix has the coefficients
    [(1, currentZMP + currentOffset - currentDCM - currentOffset/2, 1)] over
    [(z, sigma, delta)], its lower and its upper bound are both
    [currentOffset/2 + currentZMP], and every point admitted by the
    constraints satisfies the equality exactly. *)
Theorem C2_pinned_equality (O : QPSolver.OsqpEigen) (nominal : Vector5)
    (current : Vector3) (tol : Vector4) (s : QPSolver.t O) :
  let currentZMP := at3 current 0 in
  let currentDCM := at3 current 1 in
  let currentOffset := at3 current 2 in
  let s' := QPSolver.tickConstraints O nominal current tol s in
  coeff (QPSolver.m_constraintsMAtrix s') 0 0 = 1
  /\ coeff (QPSolver.m_constraintsMAtrix s') 0 1
     = currentZMP + currentOffset - currentDCM - currentOffset / 2
  /\ coeff (QPSolver.m_constraintsMAtrix s') 0 2 = 1
  /\ nth 0 (QPSolver.m_lowerBound s') 0 = currentOffset / 2 + currentZMP
  /\ nth 0 (QPSolver.m_upperBound s') 0 = currentOffset / 2 + currentZMP
  /\ forall x : Vector3,
       QPSolver.admitted O s' x ->
       at3 x 0 + (currentZMP + currentOffset - currentDCM - currentOffset / 2) * at3 x 1
       + at3 x 2 = currentOffset / 2 + currentZMP.
Proof.
  intros currentZMP currentDCM currentOffset s'. subst s'.
  rewrite tickConstraints_matrix, tickConstraints_lower, tickConstraints_upper.
  repeat split; try reflexivity.
  intros x H. apply admitted_tickConstraints in H.
  destruct H as [E _]. exact E.
Qed.

Lemma C2_pinned_equality_witness :
  let nominal := mkVector5 1 (exp 1) 0 0 2 in
  let current := mkVector3 (1 / 5) (3 / 10) 0 in
  let tol := mkVector4 (1 / 10) (1 / 10) (1 / 4) 0 in
  let x := mkVector3 (1 / 5) 0 0 in
  QPSolver.admitted QPSolver.refOsqp
    (QPSolver.tickConstraints QPSolver.refOsqp nominal current tol QPSolver.refFresh) x
  /\ at3 x 0 + (at3 current 0 + at3 current 2 - at3 current 1 - at3 current 2 / 2) * at3 x 1
     + at3 x 2 = at3 current 2 / 2 + at3 current 0.
Proof.
  intros nominal current tol x.
  assert (H : QPSolver.admitted QPSolver.refOsqp
    (QPSolver.tickConstraints QPSolver.refOsqp nominal current tol QPSolver.refFresh) x).
  { apply admitted_tickConstraints.
    pose proof (exp_pos ((QPSolver.StepDuration nominal + at4 tol 2) * at5 nominal 4)).
    pose proof (exp_pos ((QPSolver.StepDuration nominal - at4 tol 2) * at5 nominal 4)).
    unfold nominal, current, tol, x in *. simpl in *.
    repeat split; lra. }
  split; [exact H|].
  exact (proj2 (proj2 (proj2 (proj2 (proj2
    (C2_pinned_equality QPSolver.refOsqp nominal current tol QPSolver.refFresh))))) x H).
Defined.

(** C6, as the claim states it, fails: the first call installs the Hessian of
    the gains [(1, 1, 1, 1)], the solver is initialized, and the second call,
    with the gains [(2, 2, 2, 2)], returns [true]; the claim asks for
    [false]. *)
Lemma C6_second_call_returns_true :
  let first := QPSolver.setHessianMatrix QPSolver.refOsqp (mkVector4 1 1 1 1)
                 QPSolver.refFresh in
  let initialized :=
    QPSolver.with_solver QPSolver.refOsqp
      (QPSolver.refInitSolver (QPSolver.m_QPSolver (snd first))) (snd first) in
  fst first = true
  /\ QPSolver.isInitialized QPSolver.refOsqp (QPSolver.m_QPSolver initialized) = true
  /\ fst (QPSolver.setHessianMatrix QPSolver.refOsqp (mkVector4 2 2 2 2) initialized)
     = true.
Proof. repeat split. Qed.

(** C6, amended.  On an initialized solver [setHessianMatrix] returns [true]
    (it only warns), leaves the underlying solver, and with it the Hessian
    the solver holds, untouched, and overwrites the wrapper's own copy
    [m_hessian] with the matrix of its argument. *)
Theorem C6_setHessian_after_initialization (O : QPSolver.OsqpEigen)
    (alphaVector : Vector4) (s : QPSolver.t O) :
  QPSolver.isInitialized O (QPSolver.m_QPSolver s) = true ->
  fst (QPSolver.setHessianMatrix O alphaVector s) = true
  /\ QPSolver.m_QPSolver (snd (QPSolver.setHessianMatrix O alphaVector s))
     = QPSolver.m_QPSolver s
  /\ QPSolver.m_hessian (snd (QPSolver.setHessianMatrix O alphaVector s))
     = QPSolver.Hessian alphaVector.
Proof.
  intros Hinit. unfold QPSolver.setHessianMatrix. simpl.
  rewrite Hinit. simpl. repeat split.
Qed.

Lemma C6_setHessian_after_initialization_witness :
  let first := QPSolver.setHessianMatrix QPSolver.refOsqp (mkVector4 1 1 1 1)
                 QPSolver.refFresh in
  let initialized :=
    QPSolver.with_solver QPSolver.refOsqp
      (QPSolver.refInitSolver (QPSolver.m_QPSolver (snd first))) (snd first) in
  let second := QPSolver.setHessianMatrix QPSolver.refOsqp (mkVector4 2 2 2 2)
                  initialized in
  QPSolver.isInitialized QPSolver.refOsqp (QPSolver.m_QPSolver initialized) = true
  /\ fst second = true
  /\ QPSolver.ref_hessian (QPSolver.m_QPSolver (snd second))
     = Some (QPSolver.Hessian (mkVector4 1 1 1 1))
  /\ QPSolver.m_hessian (snd second) = QPSolver.Hessian (mkVector4 2 2 2 2).
Proof.
  intros first initialized second.
  assert (Hinit : QPSolver.isInitialized QPSolver.refOsqp
                    (QPSolver.m_QPSolver initialized) = true) by reflexivity.
  destruct (C6_setHessian_after_initialization QPSolver.refOsqp (mkVector4 2 2 2 2)
              initialized Hinit) as (Hret & Hsolver & Hcopy).
  split; [exact Hinit|]. split; [exact Hret|]. split; [|exact Hcopy].
  unfold second. rewrite Hsolver. reflexivity.
Defined.

(** C7.  With [omega > 0], after [setTimings] the impact time decoded by
    [getDesiredImpactTime] from a solution whose sigma component (index 2)
    is the nominal sigma is [nextImpactTime]; and, for any [T], decoding
    [log (sigma) / omega] from [sigma = exp (omega * T)] gives back [T]. *)
Theorem C7_sigma_time_round_trip
    (omega currentTime nextImpactTime nextDoubleSupportDuration : R)
    (solution : list R) :
  0 < omega ->
  let s := StepAdaptator.setTimings omega currentTime nextImpactTime
             nextDoubleSupportDuration in
  nth_error solution 2 = Some (StepAdaptator.m_sigmaNominal s) ->
  StepAdaptator.m_sigmaNominal s
  = exp (omega * (nextImpactTime + nextDoubleSupportDuration / 2 - currentTime))
  /\ StepAdaptator.getDesiredImpactTime s solution = Some nextImpactTime
  /\ forall T : R,
       StepAdaptator.timeOfSigma omega (StepAdaptator.sigmaOfTime omega T) = T.
Proof.
  intros Homega s Hsol.
  assert (Hround : forall T : R,
            StepAdaptator.timeOfSigma omega (StepAdaptator.sigmaOfTime omega T) = T).
  { intros T. unfold StepAdaptator.timeOfSigma, StepAdaptator.sigmaOfTime.
    rewrite ln_exp. field. lra. }
  split; [reflexivity|]. split; [|exact Hround].
  unfold StepAdaptator.getDesiredImpactTime. rewrite Hsol.
  unfold s at 1. unfold StepAdaptator.setTimings at 1.
  cbv [StepAdaptator.m_sigmaNominal].
  unfold s. cbv [StepAdaptator.setTimings StepAdaptator.m_omega
                 StepAdaptator.m_currentTime StepAdaptator.m_nextDoubleSupportDuration].
  rewrite Hround. f_equal. lra.
Qed.

Lemma C7_sigma_time_round_trip_witness :
  0 < 4
  /\ StepAdaptator.getDesiredImpactTime (StepAdaptator.setTimings 4 1 (3 / 2) (1 / 5))
       [0; 0; StepAdaptator.m_sigmaNominal (StepAdaptator.setTimings 4 1 (3 / 2) (1 / 5));
        0; 0]
     = Some (3 / 2).
Proof.
  assert (H : 0 < 4) by lra.
  split; [exact H|].
  exact (proj1 (proj2 (C7_sigma_time_round_trip 4 1 (3 / 2) (1 / 5)
    [0; 0; StepAdaptator.m_sigmaNominal (StepAdaptator.setTimings 4 1 (3 / 2) (1 / 5));
     0; 0] H eq_refl))).
Defined.

(** The parts of C9 that the code does satisfy. *)
Lemma saturateFz_negative_threshold (Fz thresholdFz : R) :
  thresholdFz < 0 -> WalkingModule.saturateFz Fz thresholdFz = (false, Fz).
Proof.
  intros H. unfold WalkingModule.saturateFz.
  destruct (Rlt_dec thresholdFz 0); [reflexivity | lra].
Qed.

Lemma saturateFz_positive_threshold (Fz thresholdFz : R) :
  0 < thresholdFz ->
  (thresholdFz <= Fz -> WalkingModule.saturateFz Fz thresholdFz = (true, Fz))
  /\ (Fz < thresholdFz -> WalkingModule.saturateFz Fz thresholdFz = (true, 0)).
Proof.
  intros H. unfold WalkingModule.saturateFz.
  destruct (Rlt_dec thresholdFz 0); [lra|].
  split; intros H'.
  - destruct (Rge_dec Fz thresholdFz); [reflexivity | lra].
  - destruct (Rge_dec Fz thresholdFz); [lra|].
    destruct (Rlt_dec Fz thresholdFz); [reflexivity | lra].
Qed.

(** C9.  With the threshold [0] the request is not rejected: [saturateFz]
    returns [true], leaving [Fz = 5] as it is and setting [Fz = -1] to [0].
    The guard of the function tests [thresholdFz < 0], while its own error
    message asks for a threshold greater than zero. *)
Theorem C9_zero_threshold_accepted :
  WalkingModule.saturateFz 5 0 = (true, 5)
  /\ WalkingModule.saturateFz (-1) 0 = (true, 0).
Proof.
  unfold WalkingModule.saturateFz. split.
  - destruct (Rlt_dec 0 0); [lra|].
    destruct (Rge_dec 5 0); [reflexivity | lra].
  - destruct (Rlt_dec 0 0); [lra|].
    destruct (Rge_dec (-1) 0); [lra|].
    destruct (Rlt_dec (-1) 0); [reflexivity | lra].
Qed.

(** C10.  The Hessian built by [setHessianMatrix] has exactly the five stated
    entries, is symmetric for every gain vector, and is positive definite
    when the four gains are strictly positive. *)
Theorem C10_hessian_symmetric_positive_definite (alpha : Vector4) :
  let H := QPSolver.Hessian alpha in
  (coeff H 0 0 = at4 alpha 0 + at4 alpha 3
   /\ coeff H 0 2 = at4 alpha 0 /\ coeff H 2 0 = at4 alpha 0
   /\ coeff H 1 1 = at4 alpha 2
   /\ coeff H 2 2 = at4 alpha 0 + at4 alpha 1
   /\ coeff H 0 1 = 0 /\ coeff H 1 0 = 0 /\ coeff H 1 2 = 0 /\ coeff H 2 1 = 0)
  /\ symmetric H
  /\ (0 < at4 alpha 0 /\ 0 < at4 alpha 1 /\ 0 < at4 alpha 2 /\ 0 < at4 alpha 3 ->
      positive_definite H).
Proof.
  intros H. subst H. split; [|split].
  - repeat split.
  - intros i j. unfold coeff, QPSolver.Hessian.
    destruct i as [|[|[|i]]]; destruct j as [|[|[|j]]]; reflexivity.
  - intros (H0 & H1 & H2 & H3) x Hx.
    unfold quad_form, row_apply, coeff, QPSolver.Hessian. simpl.
    destruct alpha as [a0 a1 a2 a3]. destruct x as [x0 x1 x2]. simpl in *.
    assert (Hsquare : forall y : R, 0 <= y * y) by (intros y; nra).
    assert (Hsq : 0 <= a0 * ((x0 + x2) * (x0 + x2))).
    { apply Rmult_le_pos; [lra | apply Hsquare]. }
    assert (E : x0 * ((a0 + a3) * x0 + 0 * x1 + a0 * x2)
                + x1 * (0 * x0 + a2 * x1 + 0 * x2)
                + x2 * (a0 * x0 + 0 * x1 + (a0 + a1) * x2)
                = a0 * ((x0 + x2) * (x0 + x2))
                  + a3 * (x0 * x0) + a2 * (x1 * x1) + a1 * (x2 * x2)) by ring.
    rewrite E.
    assert (Hsquare' : forall y : R, y <> 0 -> 0 < y * y).
    { intros y Hy. destruct (Rtotal_order y 0) as [Hlt | [Heq | Hgt]]; [nra | lra | nra]. }
    pose proof (Rmult_le_pos _ _ (Rlt_le _ _ H3) (Hsquare x0)).
    pose proof (Rmult_le_pos _ _ (Rlt_le _ _ H2) (Hsquare x1)).
    pose proof (Rmult_le_pos _ _ (Rlt_le _ _ H1) (Hsquare x2)).
    destruct Hx as [Hx | [Hx | Hx]].
    + pose proof (Rmult_lt_0_compat _ _ H3 (Hsquare' x0 Hx)). lra.
    + pose proof (Rmult_lt_0_compat _ _ H2 (Hsquare' x1 Hx)). lra.
    + pose proof (Rmult_lt_0_compat _ _ H1 (Hsquare' x2 Hx)). lra.
Qed.

Lemma C10_hessian_symmetric_positive_definite_witness :
  (0 < at4 (mkVector4 1 2 3 4) 0 /\ 0 < at4 (mkVector4 1 2 3 4) 1
   /\ 0 < at4 (mkVector4 1 2 3 4) 2 /\ 0 < at4 (mkVector4 1 2 3 4) 3)
  /\ positive_definite (QPSolver.Hessian (mkVector4 1 2 3 4)).
Proof.
  assert (H : 0 < at4 (mkVector4 1 2 3 4) 0 /\ 0 < at4 (mkVector4 1 2 3 4) 1
              /\ 0 < at4 (mkVector4 1 2 3 4) 2 /\ 0 < at4 (mkVector4 1 2 3 4) 3).
  { simpl. repeat split; lra. }
  split; [exact H|].
  exact (proj2 (proj2 (C10_hessian_symmetric_positive_definite (mkVector4 1 2 3 4))) H).
Defined.

(* ================================================================== *)
(** * Rules for the control-flow monad *)
(* ================================================================== *)

Section MonadFacts.

Import WalkingModule.

Context {S : Type}.

Lemma bind_get {A} (k : S -> M S A) (s : S) : bind get k s = k s s.
Proof. reflexivity. Qed.

Lemma wp_bind {A B} (c : M S A) (k : A -> M S B) Qn Qx (s : S) :
  wp c (fun a s' => wp (k a) Qn Qx s') Qx s -> wp (bind c k) Qn Qx s.
Proof. unfold wp, bind. destruct (c s); auto. Qed.

Lemma wp_mono {A} (c : M S A) (Qn Qn' : A -> S -> Prop)
    (Qx Qx' : option bool -> S -> Prop) (s : S) :
  (forall a s', Qn a s' -> Qn' a s') ->
  (forall o s', Qx o s' -> Qx' o s') ->
  wp c Qn Qx s -> wp c Qn' Qx' s.
Proof. unfold wp. intros Hn Hx. destruct (c s); auto. Qed.

Lemma wp_ret {A} (a : A) (Qn : A -> S -> Prop) Qx (s : S) :
  Qn a s -> wp (ret a) Qn Qx s.
Proof. auto. Qed.

Lemma wp_get (Qn : S -> S -> Prop) Qx (s : S) : Qn s s -> wp get Qn Qx s.
Proof. auto. Qed.

Lemma wp_modify (f : S -> S) (Qn : unit -> S -> Prop) Qx (s : S) :
  Qn tt (f s) -> wp (modify f) Qn Qx s.
Proof. auto. Qed.

Lemma wp_return {A} (b : bool) (Qn : A -> S -> Prop) Qx (s : S) :
  Qx (Some b) s -> wp (return_ b) Qn Qx s.
Proof. auto. Qed.

Lemma wp_throw {A} (Qn : A -> S -> Prop) Qx (s : S) :
  Qx None s -> wp throw Qn Qx s.
Proof. auto. Qed.

Lemma wp_undefined {A} (Qn : A -> S -> Prop) Qx (s : S) : wp undefined Qn Qx s.
Proof. exact I. Qed.

Lemma wp_check (ok : bool) (Qn : unit -> S -> Prop) Qx (s : S) :
  (ok = true -> Qn tt s) -> (ok = false -> Qx (Some false) s) ->
  wp (check ok) Qn Qx s.
Proof.
  intros Ht Hf. destruct ok.
  - exact (Ht eq_refl).
  - exact (Hf eq_refl).
Qed.

Lemma wp_when (c : bool) (body : M S unit) (Qn : unit -> S -> Prop) Qx (s : S) :
  (c = true -> wp body Qn Qx s) -> (c = false -> Qn tt s) ->
  wp (when c body) Qn Qx s.
Proof.
  intros Ht Hf. destruct c.
  - exact (Ht eq_refl).
  - exact (Hf eq_refl).
Qed.

Lemma wp_front {T} (q : list T) (Qn : T -> S -> Prop) Qx (s : S) :
  (forall x q', q = x :: q' -> Qn x s) -> wp (front q) Qn Qx s.
Proof. destruct q; unfold wp; simpl; eauto. Qed.

Lemma wp_pop_front {T} (q : list T) (Qn : list T -> S -> Prop) Qx (s : S) :
  (forall x q', q = x :: q' -> Qn q' s) -> wp (pop_front q) Qn Qx s.
Proof. destruct q; unfold wp; simpl; eauto. Qed.

Lemma wp_index {T} (q : list T) (i : Z) (Qn : T -> S -> Prop) Qx (s : S) :
  (forall x, (0 <= i)%Z -> nth_error q (Z.to_nat i) = Some x -> Qn x s) ->
  wp (index q i) Qn Qx s.
Proof.
  intros H. unfold wp, index.
  destruct (Z.ltb_spec i 0); [exact I|].
  destruct (nth_error q (Z.to_nat i)) eqn:E; [|exact I].
  apply H; auto.
Qed.

Lemma wp_at {T} (q : list T) (i : Z) (Qn : T -> S -> Prop)
    (Qx : option bool -> S -> Prop) (s : S) :
  (forall x, (0 <= i)%Z -> nth_error q (Z.to_nat i) = Some x -> Qn x s) ->
  Qx None s ->
  wp (at_ q i) Qn Qx s.
Proof.
  intros H Ht. unfold wp, at_.
  destruct (Z.ltb_spec i 0); [exact Ht|].
  destruct (nth_error q (Z.to_nat i)) eqn:E; [|exact Ht].
  apply H; auto.
Qed.

(** A call: what the callee returns is a value for the caller, what it
    throws goes through the caller. *)
Lemma wp_call (f : S -> outcome S) (Qn : bool -> S -> Prop)
    (Qx : option bool -> S -> Prop) (s : S) :
  post (f s) (fun o s' => match o with
                          | Some b => Qn b s'
                          | None => Qx None s'
                          end) ->
  wp (call f) Qn Qx s.
Proof. unfold wp, call, post. destruct (f s); auto. Qed.

Lemma post_run (body : M S bool) (Q : option bool -> S -> Prop) (s : S) :
  wp body (fun b s' => Q (Some b) s') Q s -> post (run body s) Q.
Proof. unfold wp, run, post. destruct (body s); auto. Qed.

Lemma post_mono (o : outcome S) (Q Q' : option bool -> S -> Prop) :
  (forall r s', Q r s' -> Q' r s') -> post o Q -> post o Q'.
Proof. unfold post. destruct o; auto. Qed.

End MonadFacts.

(* ================================================================== *)
(** * Properties of the reference buffers and of the merge points *)
(* ================================================================== *)

Section MergePointFacts.

Import WalkingModule.

Lemma wrap_small (z : Z) : (0 <= z < 2 ^ 64)%Z -> wrap z = z.
Proof. intros H. unfold wrap. apply Z.mod_small. exact H. Qed.

Lemma strictly_ascending_strong (l : list Z) :
  strictly_ascending l <-> StronglySorted Z.lt l.
Proof.
  unfold strictly_ascending. split.
  - apply Sorted_StronglySorted. intros x y z. apply Z.lt_trans.
  - apply StronglySorted_Sorted.
Qed.

Lemma StronglySorted_filter (f : Z -> bool) (l : list Z) :
  StronglySorted Z.lt l -> StronglySorted Z.lt (filter f l).
Proof.
  induction 1 as [|a l Hs IH Ha]; simpl.
  - constructor.
  - destruct (f a); [|exact IH].
    constructor; [exact IH|].
    rewrite Forall_forall in *. intros x Hx.
    apply filter_In in Hx. apply Ha. tauto.
Qed.

Lemma StronglySorted_shift (n : Z) (l : list Z) :
  StronglySorted Z.lt l -> StronglySorted Z.lt (map (fun m => (m - n)%Z) l).
Proof.
  induction 1 as [|a l Hs IH Ha]; simpl.
  - constructor.
  - constructor; [exact IH|].
    rewrite Forall_forall in *. intros x Hx.
    apply in_map_iff in Hx. destruct Hx as (y & <- & Hy).
    specialize (Ha y Hy). lia.
Qed.

Lemma surviving_ascending (n : Z) (l : list Z) :
  strictly_ascending l -> strictly_ascending (surviving n l).
Proof.
  rewrite !strictly_ascending_strong. intros H.
  apply StronglySorted_shift, StronglySorted_filter, H.
Qed.

Lemma surviving_valid (n : Z) (l : list Z) :
  (0 <= n)%Z -> valid_mergePoints l -> valid_mergePoints (surviving n l).
Proof.
  intros Hn [Hs Hr]. split.
  - apply surviving_ascending, Hs.
  - unfold surviving. rewrite Forall_forall in *. intros x Hx.
    apply in_map_iff in Hx. destruct Hx as (y & <- & Hy).
    apply filter_In in Hy. destruct Hy as [Hy Hlt].
    apply Z.ltb_lt in Hlt. specialize (Hr y Hy). lia.
Qed.

Lemma surviving_zero (l : list Z) :
  Forall (fun m => (1 <= m < 2 ^ 64)%Z) l -> surviving 0 l = l.
Proof.
  unfold surviving. induction 1 as [|a l Ha Hl IH]; simpl.
  - reflexivity.
  - destruct (Z.ltb_spec 0 a); [|lia]. simpl. f_equal; [lia | exact IH].
Qed.

Lemma surviving_step (n : Z) (l : list Z) :
  (0 <= n)%Z -> surviving n (surviving 1 l) = surviving (n + 1) l.
Proof.
  intros Hn. unfold surviving. induction l as [|a l IH]; simpl.
  - reflexivity.
  - destruct (Z.ltb_spec 1 a); simpl.
    + destruct (Z.ltb_spec n (a - 1)); destruct (Z.ltb_spec (n + 1) a); try lia; simpl.
      * f_equal; [lia | exact IH].
      * exact IH.
    + destruct (Z.ltb_spec (n + 1) a); [lia | exact IH].
Qed.

(** On valid merge points the decrement of [advanceReferenceSignals] never
    wraps, and the entry it drops is the one that reached zero. *)
Lemma decrementMergePoints_valid (l : list Z) :
  valid_mergePoints l ->
  decrementMergePoints l = surviving 1 l
  /\ decrementMergePoints l
     = match l with
       | [] => []
       | m0 :: rest =>
           if (m0 =? 1)%Z then map (fun m => (m - 1)%Z) rest
           else map (fun m => (m - 1)%Z) (m0 :: rest)
       end.
Proof.
  intros [Hs Hr]. apply strictly_ascending_strong in Hs.
  assert (Hmap : map (fun m => wrap (m - 1)) l = map (fun m => (m - 1)%Z) l).
  { apply map_ext_in. intros m Hm. rewrite Forall_forall in Hr.
    specialize (Hr m Hm). apply wrap_small. lia. }
  destruct l as [|m0 rest]; [split; reflexivity|].
  unfold decrementMergePoints. rewrite Hmap.
  inversion Hs as [|? ? Hs' Hlt]; subst.
  inversion Hr as [|? ? Hm0 Hr']; subst.
  assert (Hrest : filter (fun m => (1 <? m)%Z) rest = rest).
  { apply forallb_filter_id. apply forallb_forall. intros m Hm.
    rewrite Forall_forall in Hlt. specialize (Hlt m Hm). apply Z.ltb_lt. lia. }
  unfold surviving. simpl. rewrite Hrest.
  destruct (Z.eqb_spec (m0 - 1) 0) as [E | E].
  - destruct (Z.ltb_spec 1 m0); [lia|].
    destruct (Z.eqb_spec m0 1); [|lia]. split; reflexivity.
  - destruct (Z.ltb_spec 1 m0); [|lia].
    destruct (Z.eqb_spec m0 1); [lia|]. split; reflexivity.
Qed.

(** A merge point that is already zero wraps around instead. *)
Example decrementMergePoints_wraps :
  decrementMergePoints [0; 3]%Z = [18446744073709551615; 2]%Z.
Proof. reflexivity. Qed.

End MergePointFacts.

Section BufferFacts.

Import WalkingModule.

Context {Transform Twist : Type}.

Lemma back_opt_cons {T : Type} (x : T) (q : list T) :
  exists y, back_opt (x :: q) = Some y.
Proof.
  revert x. induction q as [|a q IH]; intros x.
  - exists x. reflexivity.
  - destruct (IH a) as [y Hy]. exists y. simpl in *. exact Hy.
Qed.

(** On a queue of at least two samples, pop-front followed by push-back of
    the back sample is defined and keeps the length. *)
Lemma pop_push_long {T : Type} (q : list T) (s : @t Transform Twist) :
  (2 <= length q)%nat ->
  exists q', pop_push q s = Next q' s /\ length q' = length q.
Proof.
  intros Hlen. destruct q as [|a [|b q]]; simpl in Hlen; try lia.
  destruct (back_opt_cons b q) as [y Hy].
  exists (push_back (b :: q) y). split.
  - unfold pop_push, bind, pop_front, back, ret. rewrite Hy. reflexivity.
  - unfold push_back. rewrite length_app. simpl. lia.
Qed.

Lemma empty_long {T : Type} (q : list T) : (2 <= length q)%nat -> empty q = false.
Proof. destruct q; simpl; [lia | reflexivity]. Qed.

(** One call of [advanceReferenceSignals] on buffers of at least two
    samples. *)
Lemma advanceReferenceSignals_long (s : @t Transform Twist) :
  buffers_at_least 2 (buffers s) ->
  exists b',
    advanceReferenceSignals s
    = Returned true (set_mergePoints (decrementMergePoints (m_mergePoints s))
                       (set_buffers b' s))
    /\ same_lengths (buffers s) b'.
Proof.
  intros (H1 & H2 & H3 & H4 & H5 & H6 & H7 & H8 & H9 & H10 & H11).
  destruct (pop_push_long _ s H2) as (q2 & E2 & L2).
  destruct (pop_push_long _ s H1) as (q1 & E1 & L1).
  destruct (pop_push_long _ s H4) as (q4 & E4 & L4).
  destruct (pop_push_long _ s H3) as (q3 & E3 & L3).
  destruct (pop_push_long _ s H6) as (q6 & E6 & L6).
  destruct (pop_push_long _ s H5) as (q5 & E5 & L5).
  destruct (pop_push_long _ s H7) as (q7 & E7 & L7).
  destruct (pop_push_long _ s H8) as (q8 & E8 & L8).
  destruct (pop_push_long _ s H9) as (q9 & E9 & L9).
  destruct (pop_push_long _ s H10) as (q10 & E10 & L10).
  destruct (pop_push_long _ s H11) as (q11 & E11 & L11).
  exists (mkBuffers q1 q2 q3 q4 q5 q6 q7 q8 q9 q10 q11). split.
  - unfold advanceReferenceSignals, run, advanceReferenceSignals_body.
    unfold bind at 1. unfold get. cbv zeta.
    rewrite (empty_long _ H1), (empty_long _ H2), (empty_long _ H5), (empty_long _ H6),
      (empty_long _ H8), (empty_long _ H9), (empty_long _ H10).
    cbv [orb]. unfold bind. cbv beta iota.
    rewrite E2, E1, E4, E3, E6, E5, E7, E8, E9, E10, E11.
    reflexivity.
  - unfold same_lengths. simpl. repeat split; assumption.
Qed.

Lemma same_lengths_at_least (n : nat) (b b' : @Buffers Transform Twist) :
  same_lengths b b' -> buffers_at_least n b -> buffers_at_least n b'.
Proof.
  unfold same_lengths, buffers_at_least.
  intros (E1 & E2 & E3 & E4 & E5 & E6 & E7 & E8 & E9 & E10 & E11).
  rewrite E1, E2, E3, E4, E5, E6, E7, E8, E9, E10, E11. tauto.
Qed.

Lemma same_lengths_refl (b : @Buffers Transform Twist) : same_lengths b b.
Proof. unfold same_lengths. repeat split. Qed.

Lemma same_lengths_trans (b1 b2 b3 : @Buffers Transform Twist) :
  same_lengths b1 b2 -> same_lengths b2 b3 -> same_lengths b1 b3.
Proof.
  unfold same_lengths.
  intros (E1 & E2 & E3 & E4 & E5 & E6 & E7 & E8 & E9 & E10 & E11)
         (F1 & F2 & F3 & F4 & F5 & F6 & F7 & F8 & F9 & F10 & F11).
  rewrite F1, F2, F3, F4, F5, F6, F7, F8, F9, F10, F11. repeat split; assumption.
Qed.

(** [n] consecutive calls. *)
Lemma advanceMany_long (n : nat) (s : @t Transform Twist) :
  buffers_at_least 2 (buffers s) ->
  valid_mergePoints (m_mergePoints s) ->
  exists s',
    advanceMany n s = Returned true s'
    /\ same_lengths (buffers s) (buffers s')
    /\ m_mergePoints s' = surviving (Z.of_nat n) (m_mergePoints s).
Proof.
  revert s. induction n as [|n IH]; intros s Hlong Hvalid.
  - exists s. split; [reflexivity|]. split; [apply same_lengths_refl|].
    symmetry. apply surviving_zero. apply Hvalid.
  - destruct (advanceReferenceSignals_long s Hlong) as (b' & Hadv & Hsame).
    destruct (decrementMergePoints_valid _ Hvalid) as [Hdec _].
    set (s1 := set_mergePoints (decrementMergePoints (m_mergePoints s)) (set_buffers b' s)) in *.
    assert (Hlong1 : buffers_at_least 2 (buffers s1)).
    { apply (same_lengths_at_least 2 (buffers s)); assumption. }
    assert (Hvalid1 : valid_mergePoints (m_mergePoints s1)).
    { simpl. rewrite Hdec. apply surviving_valid; [lia | exact Hvalid]. }
    destruct (IH s1 Hlong1 Hvalid1) as (s' & Hmany & Hsame' & Hmerge).
    exists s'. split; [|split].
    + simpl. rewrite Hadv. exact Hmany.
    + apply (same_lengths_trans _ (buffers s1)); assumption.
    + rewrite Hmerge. simpl m_mergePoints. rewrite Hdec.
      rewrite surviving_step by lia. f_equal. lia.
Qed.

(** C3, amended.  When every trajectory queue holds at least two samples and
    the merge points are valid (strictly ascending, positive), one call of
    [advanceReferenceSignals] returns [true], leaves the length of every
    queue unchanged, lowers every merge point by one and drops the front one
    exactly when its value was [1] (it reaches zero); [n] consecutive calls
    all return [true], keep the lengths, leave exactly the merge points that
    were greater than [n], each lowered by [n], and the merge points stay
    strictly ascending. *)
Theorem C3_advance_reference_signals (n : nat) (s : @t Transform Twist) :
  buffers_at_least 2 (buffers s) ->
  valid_mergePoints (m_mergePoints s) ->
  (exists s1,
      advanceReferenceSignals s = Returned true s1
      /\ same_lengths (buffers s) (buffers s1)
      /\ m_mergePoints s1
         = match m_mergePoints s with
           | [] => []
           | m0 :: rest =>
               if (m0 =? 1)%Z then map (fun m => (m - 1)%Z) rest
               else map (fun m => (m - 1)%Z) (m0 :: rest)
           end)
  /\ (exists sn,
         advanceMany n s = Returned true sn
         /\ same_lengths (buffers s) (buffers sn)
         /\ m_mergePoints sn
            = map (fun m => (m - Z.of_nat n)%Z)
                  (filter (fun m => (Z.of_nat n <? m)%Z) (m_mergePoints s))
         /\ strictly_ascending (m_mergePoints sn)).
Proof.
  intros Hlong Hvalid. split.
  - destruct (advanceReferenceSignals_long s Hlong) as (b' & Hadv & Hsame).
    destruct (decrementMergePoints_valid _ Hvalid) as [_ Hdec].
    eexists. split; [exact Hadv|]. split; [exact Hsame|]. exact Hdec.
  - destruct (advanceMany_long n s Hlong Hvalid) as (sn & Hmany & Hsame & Hmerge).
    exists sn. split; [exact Hmany|]. split; [exact Hsame|]. split; [exact Hmerge|].
    rewrite Hmerge. apply surviving_ascending. apply Hvalid.
Qed.

End BufferFacts.

(** C3, as the claim states it, fails in two ways.  On non-empty buffers of
    one sample each, [pop_front] empties the queue and [back()] has no
    element to copy: the call has no defined result.  And on merge points
    that start at zero, [0; 3], the [size_t] decrement wraps around: the
    queue becomes [2^64 - 1; 2], which is neither the original entries minus
    one nor ascending. *)
Lemma C3_advance_not_for_every_state :
  (WalkingModule.buffers_at_least 1
     (WalkingModule.buffers (Sample.sampleState 1 [3%Z] false 0%Z false))
   /\ WalkingModule.advanceReferenceSignals (Sample.sampleState 1 [3%Z] false 0%Z false)
      = WalkingModule.Undefined)
  /\ (WalkingModule.strictly_ascending [0; 3]%Z
      /\ WalkingModule.returns
           (WalkingModule.advanceReferenceSignals
              (Sample.sampleState 3 [0; 3]%Z false 0%Z false))
           (fun r s' =>
              r = true
              /\ WalkingModule.m_mergePoints s' = [18446744073709551615; 2]%Z
              /\ (2 < 18446744073709551615)%Z)).
Proof.
  split; split.
  - unfold WalkingModule.buffers_at_least. simpl. repeat split; lia.
  - reflexivity.
  - repeat constructor.
  - cbv - [Rplus Rminus Rmult Rdiv Rinv Ropp exp sqrt ln IZR]. repeat split.
Qed.

Lemma C3_advance_reference_signals_witness :
  let s := Sample.sampleState 3 [1; 3; 7]%Z false 0%Z false in
  WalkingModule.buffers_at_least 2 (WalkingModule.buffers s)
  /\ WalkingModule.valid_mergePoints (WalkingModule.m_mergePoints s)
  /\ exists sn,
       WalkingModule.advanceMany 2 s = WalkingModule.Returned true sn
       /\ WalkingModule.same_lengths (WalkingModule.buffers s) (WalkingModule.buffers sn)
       /\ WalkingModule.m_mergePoints sn = [1; 5]%Z.
Proof.
  intros s.
  assert (Hlong : WalkingModule.buffers_at_least 2 (WalkingModule.buffers s)).
  { unfold WalkingModule.buffers_at_least. simpl. repeat split; lia. }
  assert (Hvalid : WalkingModule.valid_mergePoints (WalkingModule.m_mergePoints s)).
  { split; simpl.
    - repeat constructor.
    - repeat constructor; lia. }
  split; [exact Hlong|]. split; [exact Hvalid|].
  destruct (C3_advance_reference_signals 2 s Hlong Hvalid)
    as (_ & sn & Hmany & Hsame & Hmerge & _).
  exists sn. split; [exact Hmany|]. split; [exact Hsame|]. exact Hmerge.
Defined.

(* ================================================================== *)
(** * Properties of the merge scheduler *)
(* ================================================================== *)

(** C4, as the claim states it, fails: a request is pending with the merge
    counter at [7], the front merge point is [25 > 20], and the call sets
    the counter to [25]. *)
Lemma C4_pending_request_overridden :
  let s := Sample.sampleState 3 [25; 60]%Z true 7%Z false in
  WalkingModule.m_newTrajectoryRequired s = true
  /\ WalkingModule.m_newTrajectoryMergeCounter s = 7%Z
  /\ exists s',
       WalkingModule.setPlannerInput 1 2 s = WalkingModule.Returned true s'
       /\ WalkingModule.m_newTrajectoryMergeCounter s' = 25%Z.
Proof.
  intros s. split; [reflexivity|]. split; [reflexivity|].
  eexists. split; reflexivity.
Qed.

(** C4, amended.  While a request is pending, [setPlannerInput] leaves the
    merge counter, and the whole state, unchanged when the merge-point queue
    is empty (it then returns whether both feet are in contact) and when its
    front is at most [20] (it then returns [true]); when the front exceeds
    [20] the counter is set to the front and the goal is replaced, pending
    request or not. *)
Theorem C4_pending_request {Transform Twist : Type} (x y : R)
    (s : @WalkingModule.t Transform Twist) :
  WalkingModule.m_newTrajectoryRequired s = true ->
  match WalkingModule.m_mergePoints s with
  | [] =>
      forall (l r : bool) (ql qr : list bool),
        WalkingModule.m_leftInContact (WalkingModule.buffers s) = l :: ql ->
        WalkingModule.m_rightInContact (WalkingModule.buffers s) = r :: qr ->
        WalkingModule.setPlannerInput x y s = WalkingModule.Returned (l && r) s
  | mergePoints_front :: _ =>
      if (20 <? mergePoints_front)%Z then
        WalkingModule.setPlannerInput x y s
        = WalkingModule.Returned true
            (WalkingModule.set_newTrajectoryRequired true
               (WalkingModule.set_desiredPosition (x, y)
                  (WalkingModule.set_newTrajectoryMergeCounter mergePoints_front s)))
      else
        WalkingModule.setPlannerInput x y s = WalkingModule.Returned true s
  end.
Proof.
  intros Hpending.
  unfold WalkingModule.setPlannerInput, WalkingModule.run,
    WalkingModule.setPlannerInput_body.
  rewrite bind_get. cbv beta.
  destruct (WalkingModule.m_mergePoints s) as [|f rest].
  - intros l r ql qr Hl Hr. rewrite Hl, Hr, Hpending.
    destruct l, r; reflexivity.
  - destruct (20 <? f)%Z.
    + reflexivity.
    + rewrite Hpending. destruct rest; reflexivity.
Qed.

Lemma C4_pending_request_witness :
  let s := Sample.sampleState 3 [15; 40]%Z true 40%Z false in
  WalkingModule.m_newTrajectoryRequired s = true
  /\ WalkingModule.setPlannerInput 1 2 s = WalkingModule.Returned true s.
Proof.
  intros s.
  assert (H : WalkingModule.m_newTrajectoryRequired s = true) by reflexivity.
  split; [exact H|].
  exact (C4_pending_request 1 2 s H).
Defined.

(* ================================================================== *)
(** * Properties of the periodic tick *)
(* ================================================================== *)

(** One step of symbolic execution of a computation under [wp]. *)
Ltac wp_step :=
  lazymatch goal with
  | |- WalkingModule.wp (WalkingModule.bind _ _) _ _ _ => apply wp_bind
  | |- WalkingModule.wp WalkingModule.get _ _ _ => apply wp_get
  | |- WalkingModule.wp (WalkingModule.ret _) _ _ _ => apply wp_ret
  | |- WalkingModule.wp (WalkingModule.modify _) _ _ _ => apply wp_modify
  | |- WalkingModule.wp (WalkingModule.return_ _) _ _ _ => apply wp_return
  | |- WalkingModule.wp WalkingModule.throw _ _ _ => apply wp_throw
  | |- WalkingModule.wp WalkingModule.undefined _ _ _ => apply wp_undefined
  | |- WalkingModule.wp (WalkingModule.check _) _ _ _ => apply wp_check; intros ?
  | |- WalkingModule.wp (WalkingModule.when _ _) _ _ _ => apply wp_when; intros ?
  | |- WalkingModule.wp (WalkingModule.front _) _ _ _ => apply wp_front; intros ? ? ?
  | |- WalkingModule.wp (WalkingModule.pop_front _) _ _ _ =>
      apply wp_pop_front; intros ? ? ?
  | |- WalkingModule.wp (WalkingModule.index _ _) _ _ _ => apply wp_index; intros ? ? ?
  | |- WalkingModule.wp (WalkingModule.at_ _ _) _ _ _ =>
      apply wp_at; [intros ? ? ? | ]
  | |- WalkingModule.wp (if ?b then _ else _) _ _ _ => destruct b eqn:?
  | |- WalkingModule.wp (match ?x with Some _ => _ | None => _ end) _ _ _ =>
      destruct x eqn:?
  | |- WalkingModule.wp (match ?x with (_, _) => _ end) _ _ _ => destruct x eqn:?
  end; cbv beta zeta.

Ltac wp_run := repeat wp_step.

Section TickFacts.

Import WalkingModule.

Context {Transform Twist : Type}.
Context (appendVectorToDeque : forall T : Type, list T -> list T -> Z -> list T).
Context (env : @TickEnv Transform Twist).

Lemma keeps_refl (s : @t Transform Twist) : keeps s s.
Proof. unfold keeps. auto. Qed.

Lemma keeps_trans (s1 s2 s3 : @t Transform Twist) :
  keeps s1 s2 -> keeps s2 s3 -> keeps s1 s3.
Proof. unfold keeps. intuition congruence. Qed.

Ltac keeps_solve :=
  try exact I;
  unfold keeps in *; simpl in *;
  repeat match goal with
         | H : _ /\ _ |- _ => destruct H
         end;
  repeat split; congruence.

Lemma setPlannerInput_keeps (x y : R) (s : @t Transform Twist) :
  post (setPlannerInput x y s) (fun r s' => r <> None /\ keeps s s').
Proof.
  apply post_run. unfold setPlannerInput_body.
  wp_step. wp_step.
  destruct (m_mergePoints s) as [|f [|g rest]]; wp_run; keeps_solve.
Qed.

Lemma askNewTrajectories_keeps (initTime : R) (isLeftSwinging : bool)
    (measuredTransform : Transform) (mergePoint : Z) (desiredPosition : Vector2)
    (s : @t Transform Twist) :
  post (askNewTrajectories env initTime isLeftSwinging measuredTransform mergePoint
          desiredPosition s)
       (fun r s' => r <> None /\ keeps s s').
Proof.
  apply post_run. wp_run; keeps_solve.
Qed.

Lemma updateTrajectories_keeps (mergePoint : Z) (s : @t Transform Twist) :
  post (updateTrajectories appendVectorToDeque env mergePoint s)
       (fun r s' => r <> None /\ keeps s s').
Proof.
  apply post_run. wp_run; keeps_solve.
Qed.

Lemma updateFKSolver_unchanged (s : @t Transform Twist) :
  post (updateFKSolver env s) (fun r s' => r <> None /\ s' = s).
Proof.
  apply post_run. wp_run; split; congruence.
Qed.


Lemma wp_back {T : Type} (q : list T) (Qn : T -> @t Transform Twist -> Prop) Qx
    (s : @t Transform Twist) :
  (forall x, Qn x s) -> wp (back q) Qn Qx s.
Proof. intros H. unfold wp, back. destruct (back_opt q); [apply H | exact I]. Qed.

Lemma wp_pop_push {T : Type} (q : list T) (Qn : list T -> @t Transform Twist -> Prop) Qx
    (s : @t Transform Twist) :
  (forall q', Qn q' s) -> wp (pop_push q) Qn Qx s.
Proof.
  intros H. unfold pop_push. wp_run. apply wp_back. intros y. wp_run. apply H.
Qed.

Lemma advanceReferenceSignals_framed (s : @t Transform Twist) :
  post (advanceReferenceSignals s)
       (fun r s' => r <> None /\ framed s s' /\ events s' = events s).
Proof.
  apply post_run. unfold advanceReferenceSignals_body.
  wp_step. wp_step. wp_step.
  - wp_run. unfold framed. repeat split; congruence.
  - repeat (wp_step || (apply wp_pop_push; intros ?; cbv beta)).
    unfold framed. simpl. repeat split; congruence.
Qed.

(** The calls made by the tick, stepped over with what they keep. *)
Ltac wp_call_step :=
  lazymatch goal with
  | |- wp (call (setPlannerInput _ _)) _ _ _ =>
      apply wp_call; eapply post_mono; [|apply setPlannerInput_keeps]
  | |- wp (call (askNewTrajectories _ _ _ _ _ _)) _ _ _ =>
      apply wp_call; eapply post_mono; [|apply askNewTrajectories_keeps]
  | |- wp (call (updateTrajectories _ _ _)) _ _ _ =>
      apply wp_call; eapply post_mono; [|apply updateTrajectories_keeps]
  | |- wp (call (updateFKSolver _)) _ _ _ =>
      apply wp_call; eapply post_mono; [|apply updateFKSolver_unchanged]
  | |- wp (call advanceReferenceSignals) _ _ _ =>
      apply wp_call; eapply post_mono; [|apply advanceReferenceSignals_framed]
  end;
  let r := fresh "r" in
  let s' := fresh "s" in
  let H := fresh "Hcall" in
  intros r s' H; destruct r as [?|]; [cbv beta | destruct H as [H _]; congruence].

Ltac tick_run := repeat (wp_step || wp_call_step).

Lemma tickSchedule_keeps (s : @t Transform Twist) :
  wp (tickSchedule appendVectorToDeque env)
     (fun _ s' => keeps s s')
     (fun r s' => r = Some false /\ keeps s s') s.
Proof.
  unfold tickSchedule. tick_run; keeps_solve.
Qed.

Lemma adaptedBy_refl (s : @t Transform Twist) : adaptedBy env s s.
Proof. left. reflexivity. Qed.

(** The step-adaptation blocks: the solver is run by the right-swing block
    only, and only after its guard. *)
Lemma tickFeedback_adaptedBy (s : @t Transform Twist) :
  wp (tickFeedback env)
     (fun _ s' => framed s s' /\ adaptedBy env s s')
     (fun _ s' => framed s s' /\ adaptedBy env s s') s.
Proof.
  unfold tickFeedback, adaptStep, adaptationInputs.
  tick_run;
    repeat match goal with
           | H : _ /\ _ |- _ => destruct H
           | H : (false && _)%bool = true |- _ => discriminate H
           end;
    subst; unfold framed, adaptedBy; simpl;
    try (split; [repeat split | left; reflexivity]; fail).
  all: split; [repeat split|].
  all: right; split; [reflexivity|].
  all: unfold rightSwingTrigger; simpl.
  all: match goal with
       | H : (_ && _)%bool = true |- _ =>
           apply andb_prop in H; destruct H as [Hphase Hsize]
       end.
  all: apply Z.eqb_eq in Hphase; apply Z.ltb_lt in Hsize; unfold size in Hsize.
  all: simpl in *; subst; repeat split; try assumption; try lia; congruence.
Qed.

Lemma tickControl_unchanged (s : @t Transform Twist) :
  wp (tickControl env) (fun _ s' => s' = s) (fun _ s' => s' = s) s.
Proof.
  unfold tickControl. tick_run; reflexivity.
Qed.

Lemma tickCommand_framed (s : @t Transform Twist) :
  wp (tickCommand env)
     (fun _ s' => framed s s' /\ adaptations (events s') = adaptations (events s))
     (fun _ s' => framed s s' /\ adaptations (events s') = adaptations (events s)) s.
Proof.
  unfold tickCommand, propagateTime.
  tick_run;
    repeat match goal with
           | H : _ /\ _ |- _ => destruct H
           end;
    unfold framed in *; simpl in *;
    repeat match goal with
           | H : _ /\ _ |- _ => destruct H
           end;
    repeat split; try congruence;
    match goal with
    | H : events _ = _ |- _ => rewrite H; reflexivity
    end.
Qed.

Lemma updateModule_Preparing_adaptations (s : @t Transform Twist) :
  wp (updateModule_Preparing env)
     (fun _ s' => adaptations (events s') = adaptations (events s))
     (fun _ s' => adaptations (events s') = adaptations (events s)) s.
Proof.
  unfold updateModule_Preparing, failPreparing, reset.
  tick_run; reflexivity.
Qed.

(** C8.  Whatever the state and the answers of the collaborators, a tick
    that ends (by returning or by throwing) has run the step adaptation at
    most once, and if it has, the run was made by the right-swing block, in
    the state [Walking], with the guard of that block true: the right foot's
    phase table holds the code [2] at [indexmilad] and more than one right
    step is planned.  The left-swing block, guarded by the literal [false],
    never runs it. *)
Theorem C8_adaptation_only_by_right_swing (s : @t Transform Twist) :
  post (updateModule appendVectorToDeque env s)
       (fun _ s' =>
          adaptations (events s') = adaptations (events s)
          \/ (adaptations (events s') = RightSwing :: adaptations (events s)
              /\ m_robotState s = Walking
              /\ rightSwingTrigger env s')).
Proof.
  apply post_run. unfold updateModule_body.
  wp_step. wp_step. apply wp_bind.
  destruct (m_robotState s) eqn:Hstate;
    try (wp_run; left; reflexivity).
  - eapply wp_mono; [| |apply updateModule_Preparing_adaptations].
    + intros ? s' H. cbv beta. wp_run. left. exact H.
    + intros o s' H. left. exact H.
  - unfold updateModule_Walking.
    apply wp_bind. eapply wp_mono; [| |apply tickSchedule_keeps].
    2:{ intros o s1 [_ (_ & _ & _ & H)]. left. exact H. }
    intros ? s1 (_ & _ & _ & H1). cbv beta.
    apply wp_bind. eapply wp_mono; [| |apply tickFeedback_adaptedBy].
    2:{ intros o s2 [_ [H2 | [H2 Ht]]].
        - left. congruence.
        - right. repeat split; try apply Ht. congruence. }
    intros ? s2 [_ H2]. cbv beta.
    apply wp_bind. eapply wp_mono; [| |apply tickControl_unchanged].
    2:{ intros o s3 ->. destruct H2 as [H2 | [H2 Ht]].
        - left. congruence.
        - right. repeat split; try apply Ht. congruence. }
    intros ? s3 ->. cbv beta.
    eapply wp_mono; [| |apply tickCommand_framed].
    + intros ? s4 [(_ & Hc & Hi) H4]. cbv beta. wp_run.
      destruct H2 as [H2 | [H2 (Ht1 & Ht2 & Ht3 & Ht4)]].
      * left. congruence.
      * right. split; [congruence|]. split; [reflexivity|].
        unfold rightSwingTrigger. rewrite Hc, Hi. repeat split; assumption.
    + intros o s4 [(_ & Hc & Hi) H4].
      destruct H2 as [H2 | [H2 (Ht1 & Ht2 & Ht3 & Ht4)]].
      * left. congruence.
      * right. split; [congruence|]. split; [reflexivity|].
        unfold rightSwingTrigger. rewrite Hc, Hi. repeat split; assumption.
Qed.

(** C5, amended.  When the feedback acquisition fails in a tick executed in
    the state [Walking], [updateModule] returns [false], no joint position
    reference is sent in that tick, and the FSM is left in [Walking]: the
    tick makes no transition to [Stopped].  A tick whose scheduling part
    completes ends exactly at the failed feedback call. *)
Theorem C5_feedback_failure_aborts_tick (s : @t Transform Twist) :
  m_robotState s = Walking ->
  getFeedbacks env = false ->
  post (updateModule appendVectorToDeque env s)
       (fun r s' =>
          r = Some false
          /\ m_robotState s' = Walking
          /\ commandsSent (events s') = commandsSent (events s))
  /\ (forall s1,
        tickSchedule appendVectorToDeque env s = Next tt s1 ->
        updateModule appendVectorToDeque env s
        = Returned false (log GetFeedbacks s1)).
Proof.
  intros Hwalking Hfeedback. split.
  - apply post_run. unfold updateModule_body.
    wp_step. wp_step. apply wp_bind. rewrite Hwalking.
    unfold updateModule_Walking.
    apply wp_bind. eapply wp_mono; [| |apply tickSchedule_keeps].
    2:{ intros o s1 [Ho (H1 & _ & H2 & _)]. repeat split; congruence. }
    intros ? s1 (H1 & _ & H2 & _). cbv beta.
    apply wp_bind. unfold tickFeedback. rewrite Hfeedback.
    wp_step. wp_step. wp_step. wp_step.
    + discriminate.
    + simpl. repeat split; congruence.
  - intros s1 Hs1.
    unfold updateModule, run, updateModule_body.
    rewrite bind_get. cbv beta. rewrite Hwalking.
    unfold updateModule_Walking, bind at 1 2. rewrite Hs1.
    unfold tickFeedback. rewrite Hfeedback. reflexivity.
Qed.

End TickFacts.

(** C5, as the claim states it, fails: the feedback acquisition fails in a
    tick of a walking robot, no joint position reference is sent, the tick
    returns [false], and the FSM is still in [Walking], not in [Stopped]. *)
Lemma C5_fsm_stays_walking :
  let s := Sample.sampleState 3 [30%Z] false 0%Z false in
  WalkingModule.m_robotState s = WalkingModule.Walking
  /\ WalkingModule.getFeedbacks (Sample.sampleEnv false) = false
  /\ exists s',
       WalkingModule.updateModule Sample.sampleAppend (Sample.sampleEnv false) s
       = WalkingModule.Returned false s'
       /\ WalkingModule.m_robotState s' = WalkingModule.Walking
       /\ WalkingModule.commandsSent (WalkingModule.events s') = 0%nat.
Proof.
  intros s. split; [reflexivity|]. split; [reflexivity|].
  eexists. split; [reflexivity|]. split; reflexivity.
Qed.

Lemma C5_feedback_failure_aborts_tick_witness :
  let s := Sample.sampleState 40 [30%Z] true 20%Z false in
  let env := Sample.sampleEnv false in
  WalkingModule.m_robotState s = WalkingModule.Walking
  /\ WalkingModule.getFeedbacks env = false
  /\ WalkingModule.returns (WalkingModule.updateModule Sample.sampleAppend env s)
       (fun r _ => r = false)
  /\ WalkingModule.post (WalkingModule.updateModule Sample.sampleAppend env s)
       (fun r s' =>
          r = Some false
          /\ WalkingModule.m_robotState s' = WalkingModule.Walking
          /\ WalkingModule.commandsSent (WalkingModule.events s')
             = WalkingModule.commandsSent (WalkingModule.events s)).
Proof.
  intros s env.
  assert (Hw : WalkingModule.m_robotState s = WalkingModule.Walking) by reflexivity.
  assert (Hf : WalkingModule.getFeedbacks env = false) by reflexivity.
  split; [exact Hw|]. split; [exact Hf|]. split.
  - cbv - [Rplus Rminus Rmult Rdiv Rinv Ropp exp sqrt ln IZR]. reflexivity.
  - exact (proj1 (C5_feedback_failure_aborts_tick Sample.sampleAppend env s Hw Hf)).
Defined.

(** A tick in which the right-swing block does run the step adaptation: it
    returns [true], one joint command was sent, and the merge point went
    from [30] to [29]. *)
Example right_swing_tick_adapts :
  WalkingModule.returns
    (WalkingModule.updateModule Sample.sampleAppend (Sample.sampleEnv true)
       (Sample.sampleState 40 [30%Z] false 0%Z true))
    (fun r s' =>
       r = true
       /\ WalkingModule.adaptations (WalkingModule.events s') = [WalkingModule.RightSwing]
       /\ WalkingModule.commandsSent (WalkingModule.events s') = 1%nat
       /\ WalkingModule.m_mergePoints s' = [29%Z]).
Proof.
  cbv - [Rplus Rminus Rmult Rdiv Rinv Ropp exp sqrt ln IZR].
  repeat split.
Qed.

(* ================================================================== *)
(** * Further properties of the step-adaptation problem *)
(* ================================================================== *)

Section QPObjective.

Import QPSolver.

Context (O : OsqpEigen).
Context (data_setGradient updateGradient : list R -> Solver O -> option (Solver O)).

Lemma setGradientVector_member (alpha : Vector4) (nominal : Vector5)
    (s : withGradient O) :
  m_gradient (snd (setGradientVector O data_setGradient updateGradient alpha nominal s))
  = gradientOf alpha nominal.
Proof.
  unfold setGradientVector.
  repeat match goal with
         | |- context [if ?b then _ else _] => destruct b
         | |- context [match ?o with Some _ => _ | None => _ end] => destruct o
         end; reflexivity.
Qed.

Lemma setHessianMatrix_member (alpha : Vector4) (s : t O) :
  m_hessian (snd (setHessianMatrix O alpha s)) = Hessian alpha.
Proof.
  unfold setHessianMatrix.
  repeat match goal with
         | |- context [if ?b then _ else _] => destruct b
         | |- context [match ?o with Some _ => _ | None => _ end] => destruct o
         end; reflexivity.
Qed.

Lemma objective_expanded (alpha : Vector4) (nominal : Vector5) (x : Vector3) :
  objective (Hessian alpha) (gradientOf alpha nominal) x
  = trackingCost alpha nominal x - trackingCost alpha nominal (mkVector3 0 0 0).
Proof.
  unfold objective, trackingCost, quad_form, row_apply, coeff, Hessian, gradientOf.
  destruct alpha, nominal, x. simpl. field.
Qed.

(** X1.  Whatever the solver answers, the Hessian left in [m_hessian] by
    [setHessianMatrix] and the gradient left in [m_gradient] by
    [setGradientVector] make the objective [x^T H x / 2 + g^T x] equal, up
    to a constant that does not depend on [x], to the weighted tracking
    cost: [alpha(3)] on [z - nominal(0)], [alpha(2)] on
    [sigma - nominal(1)], [alpha(1)] on [delta - nominal(2)] and [alpha(0)]
    on [z + delta - nominal(3)]. *)
Theorem X1_objective_is_tracking_cost (alpha : Vector4) (nominal : Vector5)
    (s : t O) (sg : withGradient O) (x : Vector3) :
  objective
    (m_hessian (snd (setHessianMatrix O alpha s)))
    (m_gradient (snd (setGradientVector O data_setGradient updateGradient alpha nominal sg)))
    x
  = trackingCost alpha nominal x - trackingCost alpha nominal (mkVector3 0 0 0).
Proof.
  rewrite setHessianMatrix_member, setGradientVector_member.
  apply objective_expanded.
Qed.

(** X2.  When the gains are not negative and the nominal values are
    consistent ([nominal(0) + nominal(2) = nominal(3)]: next position plus
    DCM offset is the nominal next DCM), the nominal point
    [(nominal(0), nominal(1), nominal(2))] minimises the objective built by
    the two setters; when the gains are positive it is the only
    minimiser. *)
Theorem X2_nominal_point_minimises (alpha : Vector4) (nominal : Vector5)
    (s : t O) (sg : withGradient O) :
  0 <= at4 alpha 0 -> 0 <= at4 alpha 1 -> 0 <= at4 alpha 2 -> 0 <= at4 alpha 3 ->
  at5 nominal 0 + at5 nominal 2 = at5 nominal 3 ->
  let H := m_hessian (snd (setHessianMatrix O alpha s)) in
  let g := m_gradient
             (snd (setGradientVector O data_setGradient updateGradient alpha nominal sg)) in
  let x0 := mkVector3 (at5 nominal 0) (at5 nominal 1) (at5 nominal 2) in
  (forall x : Vector3, objective H g x0 <= objective H g x)
  /\ (0 < at4 alpha 1 -> 0 < at4 alpha 2 -> 0 < at4 alpha 3 ->
      forall x : Vector3, objective H g x = objective H g x0 -> x = x0).
Proof.
  intros H0 H1 H2 H3 Hcons H g x0. subst H g.
  rewrite setHessianMatrix_member, setGradientVector_member.
  assert (Hx0 : trackingCost alpha nominal x0 = 0).
  { unfold trackingCost, x0.
    destruct alpha as [a0 a1 a2 a3], nominal as [n0 n1 n2 n3 n4]. simpl in *.
    replace (n0 + n2 - n3) with 0 by lra. field. }
  assert (Hsq : forall y : R, 0 <= y ^ 2) by (intros y; apply pow2_ge_0).
  split.
  - intros x. rewrite !objective_expanded, Hx0.
    remember (trackingCost alpha nominal (mkVector3 0 0 0)) as c0 eqn:Hc0. clear Hc0.
    unfold trackingCost.
    pose proof (Rmult_le_pos _ _ H3 (Hsq (at3 x 0 - at5 nominal 0))).
    pose proof (Rmult_le_pos _ _ H2 (Hsq (at3 x 1 - at5 nominal 1))).
    pose proof (Rmult_le_pos _ _ H1 (Hsq (at3 x 2 - at5 nominal 2))).
    pose proof (Rmult_le_pos _ _ H0 (Hsq (at3 x 0 + at3 x 2 - at5 nominal 3))).
    lra.
  - intros P1 P2 P3 x. rewrite !objective_expanded, Hx0.
    remember (trackingCost alpha nominal (mkVector3 0 0 0)) as c0 eqn:Hc0. clear Hc0.
    unfold trackingCost. intros E.
    pose proof (Rmult_le_pos _ _ H3 (Hsq (at3 x 0 - at5 nominal 0))) as Q3.
    pose proof (Rmult_le_pos _ _ H2 (Hsq (at3 x 1 - at5 nominal 1))) as Q2.
    pose proof (Rmult_le_pos _ _ H1 (Hsq (at3 x 2 - at5 nominal 2))) as Q1.
    pose proof (Rmult_le_pos _ _ H0 (Hsq (at3 x 0 + at3 x 2 - at5 nominal 3))) as Q0.
    assert (Z3 : at4 alpha 3 * (at3 x 0 - at5 nominal 0) ^ 2 = 0) by lra.
    assert (Z2 : at4 alpha 2 * (at3 x 1 - at5 nominal 1) ^ 2 = 0) by lra.
    assert (Z1 : at4 alpha 1 * (at3 x 2 - at5 nominal 2) ^ 2 = 0) by lra.
    assert (Hzero : forall a y : R, 0 < a -> a * y ^ 2 = 0 -> y = 0).
    { intros a y Ha Hay. apply Rmult_integral in Hay. destruct Hay as [Hay | Hay]; [lra|].
      simpl in Hay. rewrite Rmult_1_r in Hay.
      apply Rmult_integral in Hay. tauto. }
    apply Hzero in Z3; [|exact P3]. apply Hzero in Z2; [|exact P2].
    apply Hzero in Z1; [|exact P1].
    unfold x0. destruct x as [z sigma delta]. simpl in *.
    f_equal; lra.
Qed.

End QPObjective.

Lemma X2_nominal_point_minimises_witness :
  let alpha := mkVector4 1 2 3 4 in
  let nominal := mkVector5 (1 / 2) 7 (1 / 10) (3 / 5) 4 in
  (0 <= at4 alpha 0 /\ 0 <= at4 alpha 1 /\ 0 <= at4 alpha 2 /\ 0 <= at4 alpha 3)
  /\ at5 nominal 0 + at5 nominal 2 = at5 nominal 3
  /\ forall x : Vector3,
       QPSolver.objective (QPSolver.m_hessian (snd (QPSolver.setHessianMatrix QPSolver.refOsqp alpha QPSolver.refFresh)))
         (QPSolver.m_gradient (snd (QPSolver.setGradientVector QPSolver.refOsqp (fun _ q => Some q) (fun _ q => Some q)
                             alpha nominal (QPSolver.mkWithGradient QPSolver.refOsqp QPSolver.refFresh []))))
         (mkVector3 (1 / 2) 7 (1 / 10))
       <= QPSolver.objective (QPSolver.m_hessian (snd (QPSolver.setHessianMatrix QPSolver.refOsqp alpha QPSolver.refFresh)))
            (QPSolver.m_gradient (snd (QPSolver.setGradientVector QPSolver.refOsqp (fun _ q => Some q)
                                (fun _ q => Some q) alpha nominal
                                (QPSolver.mkWithGradient QPSolver.refOsqp QPSolver.refFresh []))))
            x.
Proof.
  intros alpha nominal.
  assert (H0 : 0 <= at4 alpha 0) by (simpl; lra).
  assert (H1 : 0 <= at4 alpha 1) by (simpl; lra).
  assert (H2 : 0 <= at4 alpha 2) by (simpl; lra).
  assert (H3 : 0 <= at4 alpha 3) by (simpl; lra).
  assert (Hc : at5 nominal 0 + at5 nominal 2 = at5 nominal 3) by (simpl; lra).
  split; [repeat split; assumption|]. split; [exact Hc|].
  exact (proj1 (X2_nominal_point_minimises QPSolver.refOsqp (fun _ q => Some q) (fun _ q => Some q)
                  alpha nominal QPSolver.refFresh (QPSolver.mkWithGradient QPSolver.refOsqp QPSolver.refFresh [])
                  H0 H1 H2 H3 Hc)).
Defined.




(** X4.  In the time domain the upper limit is enforced: with [omega > 0],
    every admitted point with a positive [sigma] decodes, by
    [log (sigma) / omega], to a step duration of at most the nominal step
    duration plus the duration tolerance. *)
Theorem X4_admitted_duration_upper_limit (O : QPSolver.OsqpEigen) (nominal : Vector5)
    (current : Vector3) (tol : Vector4) (s : QPSolver.t O) (x : Vector3) :
  0 < at5 nominal 4 ->
  0 < at3 x 1 ->
  QPSolver.admitted O (QPSolver.tickConstraints O nominal current tol s) x ->
  StepAdaptator.timeOfSigma (at5 nominal 4) (at3 x 1)
  <= QPSolver.StepDuration nominal + at4 tol 2.
Proof.
  intros Homega Hsigma H. apply admitted_tickConstraints in H.
  destruct H as (_ & _ & _ & [_ Hu] & _).
  unfold StepAdaptator.timeOfSigma.
  assert (Hln : ln (at3 x 1)
                <= (QPSolver.StepDuration nominal + at4 tol 2) * at5 nominal 4).
  { rewrite <- (ln_exp ((QPSolver.StepDuration nominal + at4 tol 2) * at5 nominal 4)).
    destruct Hu as [Hu | Hu].
    - left. apply ln_increasing; assumption.
    - right. rewrite Hu. reflexivity. }
  apply (Rmult_le_reg_r (at5 nominal 4)); [exact Homega|].
  unfold Rdiv. rewrite Rmult_assoc, Rinv_l by lra. lra.
Qed.

Lemma X4_admitted_duration_upper_limit_witness :
  let nominal := mkVector5 1 (exp 1) 0 0 2 in
  let current := mkVector3 0 0 0 in
  let tol := mkVector4 (1 / 10) (1 / 10) (1 / 4) 0 in
  let x := mkVector3 (- (1 / 2)) 1 (1 / 2) in
  0 < at5 nominal 4
  /\ 0 < at3 x 1
  /\ StepAdaptator.timeOfSigma (at5 nominal 4) (at3 x 1)
     <= QPSolver.StepDuration nominal + at4 tol 2.
Proof.
  intros nominal current tol x.
  assert (Homega : 0 < at5 nominal 4) by (simpl; lra).
  assert (Hsigma : 0 < at3 x 1) by (simpl; lra).
  split; [exact Homega|]. split; [exact Hsigma|].
  apply (X4_admitted_duration_upper_limit QPSolver.refOsqp nominal current tol
           QPSolver.refFresh x Homega Hsigma).
  apply admitted_tickConstraints.
  assert (HSD : QPSolver.StepDuration nominal = 1 / 2).
  { unfold QPSolver.StepDuration, nominal. simpl. rewrite ln_exp. lra. }
  rewrite HSD.
  pose proof (exp_pos ((1 / 2 - 1 / 4) * 2)).
  assert (Hhi : 1 < exp ((1 / 2 + 1 / 4) * 2)).
  { rewrite <- exp_0 at 1. apply exp_increasing. lra. }
  unfold nominal, current, tol, x. simpl. repeat split; lra.
Defined.

(* ================================================================== *)
(** * Further properties of the sigma/time encoding *)
(* ================================================================== *)

(** X5.  After [setTimings] with [omega > 0], a positive sigma solution
    inside the band
    [exp (omega * (stepTiming - tau)), exp (omega * (stepTiming + tau))]
    around the nominal sigma is decoded by [getDesiredImpactTime] to an
    impact time within [tau] of [nextImpactTime]; and the solution
    [exp (omega * T)] is decoded to
    [currentTime + T - nextDoubleSupportDuration / 2]. *)
Theorem X5_decoded_impact_time_band
    (omega currentTime nextImpactTime nextDoubleSupportDuration tau sigma : R)
    (z0 z1 : R) (rest : list R) :
  0 < omega ->
  let s := StepAdaptator.setTimings omega currentTime nextImpactTime
             nextDoubleSupportDuration in
  exp (omega * (StepAdaptator.m_stepTiming s - tau)) <= sigma ->
  sigma <= exp (omega * (StepAdaptator.m_stepTiming s + tau)) ->
  (exists t,
      StepAdaptator.getDesiredImpactTime s (z0 :: z1 :: sigma :: rest) = Some t
      /\ nextImpactTime - tau <= t <= nextImpactTime + tau)
  /\ forall T : R,
       StepAdaptator.getDesiredImpactTime s (z0 :: z1 :: exp (omega * T) :: rest)
       = Some (currentTime + T - nextDoubleSupportDuration / 2).
Proof.
  intros Homega s Hlo Hhi.
  assert (Hdiv : forall a : R, omega * a / omega = a) by (intros a; field; lra).
  split.
  - eexists. split; [reflexivity|].
    cbv [s StepAdaptator.setTimings StepAdaptator.m_omega StepAdaptator.m_currentTime
         StepAdaptator.m_nextDoubleSupportDuration StepAdaptator.m_stepTiming] in *.
    unfold StepAdaptator.timeOfSigma.
    set (T := nextImpactTime + nextDoubleSupportDuration / 2 - currentTime) in *.
    assert (Hpos : 0 < sigma).
    { eapply Rlt_le_trans; [apply exp_pos | exact Hlo]. }
    assert (Hln_lo : omega * (T - tau) <= ln sigma).
    { rewrite <- (ln_exp (omega * (T - tau))).
      destruct Hlo as [Hlo | Hlo].
      - left. apply ln_increasing; [apply exp_pos | exact Hlo].
      - right. rewrite Hlo. reflexivity. }
    assert (Hln_hi : ln sigma <= omega * (T + tau)).
    { rewrite <- (ln_exp (omega * (T + tau))).
      destruct Hhi as [Hhi | Hhi].
      - left. apply ln_increasing; assumption.
      - right. rewrite Hhi. reflexivity. }
    assert (Hq_lo : T - tau <= ln sigma / omega).
    { apply (Rmult_le_reg_r omega); [exact Homega|].
      unfold Rdiv. rewrite Rmult_assoc, Rinv_l by lra. lra. }
    assert (Hq_hi : ln sigma / omega <= T + tau).
    { apply (Rmult_le_reg_r omega); [exact Homega|].
      unfold Rdiv. rewrite Rmult_assoc, Rinv_l by lra. lra. }
    unfold T in *. lra.
  - intros T. unfold StepAdaptator.getDesiredImpactTime. simpl.
    unfold StepAdaptator.timeOfSigma. rewrite ln_exp, Hdiv. reflexivity.
Qed.

Lemma X5_decoded_impact_time_band_witness :
  let s := StepAdaptator.setTimings 4 1 (3 / 2) (1 / 5) in
  0 < 4
  /\ exp (4 * (StepAdaptator.m_stepTiming s - 1 / 10)) <= exp (4 * (3 / 5))
  /\ exp (4 * (3 / 5)) <= exp (4 * (StepAdaptator.m_stepTiming s + 1 / 10))
  /\ exists t,
       StepAdaptator.getDesiredImpactTime s [0; 0; exp (4 * (3 / 5))] = Some t
       /\ 3 / 2 - 1 / 10 <= t <= 3 / 2 + 1 / 10.
Proof.
  intros s.
  assert (H : 0 < 4) by lra.
  assert (Hlo : exp (4 * (StepAdaptator.m_stepTiming s - 1 / 10)) <= exp (4 * (3 / 5))).
  { left. apply exp_increasing. simpl. lra. }
  assert (Hhi : exp (4 * (3 / 5)) <= exp (4 * (StepAdaptator.m_stepTiming s + 1 / 10))).
  { left. apply exp_increasing. simpl. lra. }
  split; [exact H|]. split; [exact Hlo|]. split; [exact Hhi|].
  exact (proj1 (X5_decoded_impact_time_band 4 1 (3 / 2) (1 / 5) (1 / 10)
                  (exp (4 * (3 / 5))) 0 0 [] H Hlo Hhi)).
Defined.

(* ================================================================== *)
(** * Further properties of the reference buffers *)
(* ================================================================== *)

Section AdvanceFacts.

Import WalkingModule.

Context {Transform Twist : Type}.

Lemma back_opt_last {T : Type} (q : list T) :
  q <> [] -> back_opt q = nth_error q (length q - 1).
Proof.
  induction q as [|a q IH]; [congruence|]. intros _.
  destruct q as [|b q]; [reflexivity|].
  change (back_opt (a :: b :: q)) with (back_opt (b :: q)).
  rewrite IH by discriminate. simpl. rewrite Nat.sub_0_r. reflexivity.
Qed.

(** One round on a queue: undefined below two samples, a shift by one
    otherwise. *)
Lemma pop_push_cases {T : Type} (q : list T) (s : @t Transform Twist) :
  ((length q < 2)%nat /\ pop_push q s = UB)
  \/ ((2 <= length q)%nat /\ exists q', pop_push q s = Next q' s /\ shifted 1 q q').
Proof.
  destruct q as [|a [|b q]].
  - left. split; [simpl; lia | reflexivity].
  - left. split; [simpl; lia | reflexivity].
  - right. split; [simpl; lia|].
    destruct (back_opt_cons b q) as [y Hy].
    exists (push_back (b :: q) y). split.
    + unfold pop_push, bind, pop_front, back, ret. rewrite Hy. reflexivity.
    + unfold shifted, push_back. split.
      * rewrite length_app. simpl. lia.
      * intros i Hi. simpl in Hi.
        assert (Hlast : nth_error (a :: b :: q) (length (a :: b :: q) - 1) = Some y).
        { rewrite <- Hy. change (back_opt (b :: q)) with (back_opt (a :: b :: q)).
          symmetry. apply back_opt_last. discriminate. }
        simpl length in *.
        destruct (Nat.lt_ge_cases i (length (b :: q))) as [Hlt | Hge].
        -- rewrite nth_error_app1 by exact Hlt.
           replace (Nat.min (i + 1) (S (S (length q)) - 1))%nat with (S i)
             by (simpl in Hlt; lia).
           reflexivity.
        -- simpl in Hge.
           replace (Nat.min (i + 1) (S (S (length q)) - 1))%nat
             with (S (S (length q)) - 1)%nat by lia.
           rewrite Hlast.
           rewrite nth_error_app2 by (simpl; lia).
           replace (i - length (b :: q))%nat with 0%nat by (simpl; lia).
           reflexivity.
Qed.

Lemma shifted_zero {T : Type} (q : list T) : shifted 0 q q.
Proof.
  split; [reflexivity|]. intros i Hi. f_equal. lia.
Qed.

Lemma shifted_step {T : Type} (n : nat) (q q1 q2 : list T) :
  shifted 1 q q1 -> shifted n q1 q2 -> shifted (S n) q q2.
Proof.
  intros [L1 H1] [L2 H2]. split; [congruence|].
  intros i Hi. rewrite H2 by lia. rewrite H1.
  - f_equal. rewrite L1. lia.
  - rewrite L1. lia.
Qed.

Lemma buffers_shifted_zero (b : @Buffers Transform Twist) : buffers_shifted 0 b b.
Proof. unfold buffers_shifted. repeat split; try apply shifted_zero; intros; f_equal; lia. Qed.

Lemma buffers_shifted_step (n : nat) (b b1 b2 : @Buffers Transform Twist) :
  buffers_shifted 1 b b1 -> buffers_shifted n b1 b2 -> buffers_shifted (S n) b b2.
Proof.
  unfold buffers_shifted.
  intros (A1 & A2 & A3 & A4 & A5 & A6 & A7 & A8 & A9 & A10 & A11)
         (B1 & B2 & B3 & B4 & B5 & B6 & B7 & B8 & B9 & B10 & B11).
  repeat split; eapply shifted_step; eassumption.
Qed.

Lemma buffers_shifted_lengths (n : nat) (b b' : @Buffers Transform Twist) :
  buffers_shifted n b b' -> same_lengths b b'.
Proof.
  unfold buffers_shifted, same_lengths, shifted. intuition.
Qed.

(** The guard of [advanceReferenceSignals]. *)
Lemma advance_guard_false (s : @t Transform Twist) :
  (empty (m_leftTrajectory (buffers s))
   || empty (m_rightTrajectory (buffers s))
   || empty (m_leftInContact (buffers s))
   || empty (m_rightInContact (buffers s))
   || empty (m_DCMPositionDesired (buffers s))
   || empty (m_DCMVelocityDesired (buffers s))
   || empty (m_comHeightTrajectory (buffers s)))%bool = true ->
  advanceReferenceSignals s = Returned false s.
Proof.
  intros H. unfold advanceReferenceSignals, run, advanceReferenceSignals_body.
  rewrite bind_get. cbv zeta. rewrite H. reflexivity.
Qed.

Lemma empty_true_iff {T : Type} (q : list T) : empty q = true <-> q = [].
Proof. destruct q; simpl; split; congruence. Qed.

Lemma empty_false_length {T : Type} (q : list T) : empty q = false <-> (1 <= length q)%nat.
Proof. destruct q; simpl; split; intros; try congruence; lia. Qed.

(** Past the guard: undefined as soon as one queue is shorter than two
    samples, one shift of every queue otherwise. *)
Lemma advance_past_guard (s : @t Transform Twist) :
  (empty (m_leftTrajectory (buffers s))
   || empty (m_rightTrajectory (buffers s))
   || empty (m_leftInContact (buffers s))
   || empty (m_rightInContact (buffers s))
   || empty (m_DCMPositionDesired (buffers s))
   || empty (m_DCMVelocityDesired (buffers s))
   || empty (m_comHeightTrajectory (buffers s)))%bool = false ->
  (~ buffers_at_least 2 (buffers s) /\ advanceReferenceSignals s = Undefined)
  \/ (buffers_at_least 2 (buffers s)
      /\ exists b',
           advanceReferenceSignals s
           = Returned true (set_mergePoints (decrementMergePoints (m_mergePoints s))
                              (set_buffers b' s))
           /\ buffers_shifted 1 (buffers s) b').
Proof.
  intros H. unfold advanceReferenceSignals, run, advanceReferenceSignals_body.
  rewrite bind_get. cbv zeta. rewrite H. unfold bind. cbv beta iota.
  unfold buffers_at_least, buffers_shifted.
  destruct (pop_push_cases (m_rightTrajectory (buffers s)) s)
    as [[L2 E2] | [L2 (q2 & E2 & S2)]]; rewrite E2; [left; split; [lia | reflexivity]|].
  destruct (pop_push_cases (m_leftTrajectory (buffers s)) s)
    as [[L1 E1] | [L1 (q1 & E1 & S1)]]; rewrite E1; [left; split; [lia | reflexivity]|].
  destruct (pop_push_cases (m_rightTwistTrajectory (buffers s)) s)
    as [[L4 E4] | [L4 (q4 & E4 & S4)]]; rewrite E4; [left; split; [lia | reflexivity]|].
  destruct (pop_push_cases (m_leftTwistTrajectory (buffers s)) s)
    as [[L3 E3] | [L3 (q3 & E3 & S3)]]; rewrite E3; [left; split; [lia | reflexivity]|].
  destruct (pop_push_cases (m_rightInContact (buffers s)) s)
    as [[L6 E6] | [L6 (q6 & E6 & S6)]]; rewrite E6; [left; split; [lia | reflexivity]|].
  destruct (pop_push_cases (m_leftInContact (buffers s)) s)
    as [[L5 E5] | [L5 (q5 & E5 & S5)]]; rewrite E5; [left; split; [lia | reflexivity]|].
  destruct (pop_push_cases (m_isLeftFixedFrame (buffers s)) s)
    as [[L7 E7] | [L7 (q7 & E7 & S7)]]; rewrite E7; [left; split; [lia | reflexivity]|].
  destruct (pop_push_cases (m_DCMPositionDesired (buffers s)) s)
    as [[L8 E8] | [L8 (q8 & E8 & S8)]]; rewrite E8; [left; split; [lia | reflexivity]|].
  destruct (pop_push_cases (m_DCMVelocityDesired (buffers s)) s)
    as [[L9 E9] | [L9 (q9 & E9 & S9)]]; rewrite E9; [left; split; [lia | reflexivity]|].
  destruct (pop_push_cases (m_comHeightTrajectory (buffers s)) s)
    as [[L10 E10] | [L10 (q10 & E10 & S10)]]; rewrite E10;
    [left; split; [lia | reflexivity]|].
  destruct (pop_push_cases (m_comHeightVelocity (buffers s)) s)
    as [[L11 E11] | [L11 (q11 & E11 & S11)]]; rewrite E11;
    [left; split; [lia | reflexivity]|].
  right. split; [repeat split; assumption|].
  exists (mkBuffers q1 q2 q3 q4 q5 q6 q7 q8 q9 q10 q11).
  split; [reflexivity|]. simpl. repeat split; try apply S1; try apply S2;
    try apply S3; try apply S4; try apply S5; try apply S6; try apply S7;
    try apply S8; try apply S9; try apply S10; try apply S11.
Qed.

Lemma checkedEmpty_guard (b : @Buffers Transform Twist) :
  (empty (m_leftTrajectory b)
   || empty (m_rightTrajectory b)
   || empty (m_leftInContact b)
   || empty (m_rightInContact b)
   || empty (m_DCMPositionDesired b)
   || empty (m_DCMVelocityDesired b)
   || empty (m_comHeightTrajectory b))%bool = true <-> checkedEmpty b.
Proof.
  unfold checkedEmpty. rewrite !orb_true_iff, !empty_true_iff. tauto.
Qed.

(** X6.  The outcome of [advanceReferenceSignals] is decided by the lengths
    of the queues: it returns [false] and changes nothing when one of the
    seven queues tested by its guard is empty; past the guard it is
    undefined as soon as one of the eleven queues holds fewer than two
    samples (an empty queue among the four that the guard does not test, or
    a queue of one sample); and it returns [true] when every queue holds at
    least two samples. *)
Theorem X6_advance_outcome_by_lengths (s : @t Transform Twist) :
  (checkedEmpty (buffers s) -> advanceReferenceSignals s = Returned false s)
  /\ (~ checkedEmpty (buffers s) -> ~ buffers_at_least 2 (buffers s) ->
      advanceReferenceSignals s = Undefined)
  /\ (buffers_at_least 2 (buffers s) ->
      exists s', advanceReferenceSignals s = Returned true s').
Proof.
  split; [|split].
  - intros H. apply advance_guard_false. apply checkedEmpty_guard. exact H.
  - intros Hg Hs.
    destruct (advance_past_guard s) as [[_ E] | [Hl _]].
    + apply not_true_is_false. rewrite checkedEmpty_guard. exact Hg.
    + exact E.
    + contradiction.
  - intros Hl.
    destruct (advanceReferenceSignals_long s Hl) as (b' & E & _).
    eexists. exact E.
Qed.

(** X7.  On buffers of at least two samples, [n] consecutive calls of
    [advanceReferenceSignals] all return [true] and shift every queue by
    [n]: sample [i] becomes the old sample [i + n], and the old last sample
    once [i + n] runs past the end (the last sample is held).  Nothing but
    the buffers and the merge points changes. *)
Theorem X7_advance_shifts_and_holds (n : nat) (s : @t Transform Twist) :
  buffers_at_least 2 (buffers s) ->
  exists s',
    advanceMany n s = Returned true s'
    /\ buffers_shifted n (buffers s) (buffers s')
    /\ sameOutsideBuffers s s'.
Proof.
  revert s. induction n as [|n IH]; intros s Hlong.
  - exists s. split; [reflexivity|]. split; [apply buffers_shifted_zero|].
    unfold sameOutsideBuffers. repeat split.
  - destruct (advance_past_guard s) as [[Hn _] | [_ (b' & E & Hs)]].
    + apply not_true_is_false. rewrite checkedEmpty_guard.
      unfold checkedEmpty, buffers_at_least in *.
      destruct Hlong as (H1 & H2 & H3 & H4 & H5 & H6 & H7 & H8 & H9 & H10 & H11).
      intros [E | [E | [E | [E | [E | [E | E]]]]]];
        rewrite E in *; simpl in *; lia.
    + contradiction.
    + set (s1 := set_mergePoints (decrementMergePoints (m_mergePoints s))
                   (set_buffers b' s)) in *.
      assert (Hlong1 : buffers_at_least 2 (buffers s1)).
      { apply (same_lengths_at_least 2 (buffers s)); [|exact Hlong].
        apply buffers_shifted_lengths with (n := 1%nat). exact Hs. }
      destruct (IH s1 Hlong1) as (s' & Hmany & Hshift & Hsame).
      exists s'. split; [|split].
      * simpl. rewrite E. exact Hmany.
      * eapply buffers_shifted_step; [exact Hs | exact Hshift].
      * unfold sameOutsideBuffers in *. simpl in Hsame. exact Hsame.
Qed.

End AdvanceFacts.

Lemma X6_advance_outcome_by_lengths_witness :
  (WalkingModule.checkedEmpty
     (WalkingModule.buffers (Sample.sampleState 0 [3%Z] false 0%Z false))
   /\ WalkingModule.advanceReferenceSignals (Sample.sampleState 0 [3%Z] false 0%Z false)
      = WalkingModule.Returned false (Sample.sampleState 0 [3%Z] false 0%Z false))
  /\ (~ WalkingModule.checkedEmpty
         (WalkingModule.buffers (Sample.sampleState 1 [3%Z] false 0%Z false))
      /\ ~ WalkingModule.buffers_at_least 2
            (WalkingModule.buffers (Sample.sampleState 1 [3%Z] false 0%Z false))
      /\ WalkingModule.advanceReferenceSignals (Sample.sampleState 1 [3%Z] false 0%Z false)
         = WalkingModule.Undefined).
Proof.
  assert (H0 : WalkingModule.checkedEmpty
                 (WalkingModule.buffers (Sample.sampleState 0 [3%Z] false 0%Z false))).
  { left. reflexivity. }
  assert (H1 : ~ WalkingModule.checkedEmpty
                 (WalkingModule.buffers (Sample.sampleState 1 [3%Z] false 0%Z false))).
  { unfold WalkingModule.checkedEmpty. simpl. intuition discriminate. }
  assert (H2 : ~ WalkingModule.buffers_at_least 2
                 (WalkingModule.buffers (Sample.sampleState 1 [3%Z] false 0%Z false))).
  { unfold WalkingModule.buffers_at_least. simpl. lia. }
  split.
  - split; [exact H0|].
    exact (proj1 (X6_advance_outcome_by_lengths _) H0).
  - split; [exact H1|]. split; [exact H2|].
    exact (proj1 (proj2 (X6_advance_outcome_by_lengths _)) H1 H2).
Defined.

Lemma X7_advance_shifts_and_holds_witness :
  WalkingModule.buffers_at_least 2 (WalkingModule.buffers Sample.rampState)
  /\ exists s',
       WalkingModule.advanceMany 5 Sample.rampState = WalkingModule.Returned true s'
       /\ nth_error (WalkingModule.m_comHeightTrajectory (WalkingModule.buffers s')) 0
          = Some 3.
Proof.
  assert (H : WalkingModule.buffers_at_least 2 (WalkingModule.buffers Sample.rampState)).
  { unfold WalkingModule.buffers_at_least. simpl. repeat split; lia. }
  split; [exact H|].
  destruct (X7_advance_shifts_and_holds 5 Sample.rampState H) as (s' & E & Hs & _).
  exists s'. split; [exact E|].
  destruct Hs as (_ & _ & _ & _ & _ & _ & _ & _ & _ & [_ Hh] & _).
  exact (Hh 0%nat ltac:(simpl; lia)).
Defined.

(* ================================================================== *)
(** * Further properties of the tick and of the commands *)
(* ================================================================== *)

Section CommandFacts.

Import WalkingModule.

Context {Transform Twist : Type}.
Context (appendVectorToDeque : forall T : Type, list T -> list T -> Z -> list T).
Context (env : @TickEnv Transform Twist).
Context (cenv : CommandEnv).

Ltac break :=
  repeat match goal with
         | H : _ /\ _ |- _ => destruct H
         | H : exists _, _ |- _ => destruct H
         end.

Ltac frame_solve :=
  try exact I;
  unfold quiet, sameRequest, sameOutsideBuffers in *; simpl in *; break;
  repeat split; try congruence; try discriminate.

(** What [setPlannerInput] never touches. *)
Lemma setPlannerInput_frame (x y : R) (s : @t Transform Twist) :
  post (setPlannerInput x y s)
       (fun r s' =>
          r <> None
          /\ quiet s s'
          /\ events s' = events s
          /\ m_mergePoints s' = m_mergePoints s
          /\ buffers s' = buffers s
          /\ indexmilad s' = indexmilad s
          /\ m_firstStep s' = m_firstStep s).
Proof.
  apply post_run. unfold setPlannerInput_body.
  wp_step. wp_step.
  destruct (m_mergePoints s) as [|f [|g rest]] eqn:Hm; wp_run; frame_solve.
Qed.

Lemma askNewTrajectories_frame (initTime : R) (isLeftSwinging : bool)
    (measuredTransform : Transform) (mergePoint : Z) (desiredPosition : Vector2)
    (s : @t Transform Twist) :
  post (askNewTrajectories env initTime isLeftSwinging measuredTransform mergePoint
          desiredPosition s)
       (fun r s' =>
          r <> None
          /\ quiet s s'
          /\ sameRequest s s'
          /\ m_mergePoints s' = m_mergePoints s
          /\ (events s' = events s
              \/ events s' = AskNewTrajectories mergePoint :: events s)).
Proof.
  apply post_run. wp_run; frame_solve; auto.
Qed.

Lemma updateTrajectories_frame (mergePoint : Z) (s : @t Transform Twist) :
  post (updateTrajectories appendVectorToDeque env mergePoint s)
       (fun r s' =>
          r <> None
          /\ quiet s s'
          /\ sameRequest s s'
          /\ events s' = events s
          /\ (r = Some false -> s' = s)
          /\ (r = Some true ->
              isTrajectoryComputed (planned env) = true
              /\ exists m0, p_mergePoints (planned env) = m0 :: m_mergePoints s')).
Proof.
  apply post_run. wp_run; frame_solve; eauto.
Qed.

Lemma wp_pop_push_any {T : Type} (q : list T)
    (Qn : list T -> @t Transform Twist -> Prop) Qx (s : @t Transform Twist) :
  (forall q', Qn q' s) -> wp (pop_push q) Qn Qx s.
Proof.
  intros H. unfold pop_push. wp_run. unfold wp, back.
  destruct (back_opt q'); [apply H | exact I].
Qed.

Lemma advanceReferenceSignals_frame (s : @t Transform Twist) :
  post (advanceReferenceSignals s) (fun r s' => r <> None /\ sameOutsideBuffers s s').
Proof.
  apply post_run. unfold advanceReferenceSignals_body.
  wp_step. wp_step. wp_step.
  - wp_run. frame_solve.
  - repeat (wp_step || (apply wp_pop_push_any; intros ?; cbv beta)).
    frame_solve.
Qed.

Lemma updateFKSolver_same (s : @t Transform Twist) :
  post (updateFKSolver env s) (fun r s' => r <> None /\ s' = s).
Proof.
  apply post_run. wp_run; split; congruence.
Qed.

Ltac call_step :=
  lazymatch goal with
  | |- wp (call (setPlannerInput _ _)) _ _ _ =>
      apply wp_call; eapply post_mono; [|apply setPlannerInput_frame]
  | |- wp (call (askNewTrajectories _ _ _ _ _ _)) _ _ _ =>
      apply wp_call; eapply post_mono; [|apply askNewTrajectories_frame]
  | |- wp (call (updateTrajectories _ _ _)) _ _ _ =>
      apply wp_call; eapply post_mono; [|apply updateTrajectories_frame]
  | |- wp (call (updateFKSolver _)) _ _ _ =>
      apply wp_call; eapply post_mono; [|apply updateFKSolver_same]
  | |- wp (call advanceReferenceSignals) _ _ _ =>
      apply wp_call; eapply post_mono; [|apply advanceReferenceSignals_frame]
  end;
  let r := fresh "r" in
  let s' := fresh "s" in
  let H := fresh "Hcall" in
  intros r s' H; destruct r as [?|]; [cbv beta | destruct H as [H _]; congruence].

Ltac go := repeat (wp_step || call_step).

(** The scheduling part: the planner is asked at most once, and only with
    the merge point [20]. *)
Lemma tickSchedule_trace (s : @t Transform Twist) :
  wp (tickSchedule appendVectorToDeque env)
     (fun _ s' =>
        quiet s s'
        /\ exists ask, events s' = ask ++ events s
                       /\ optional (AskNewTrajectories 20) ask)
     (fun r s' =>
        r = Some false
        /\ quiet s s'
        /\ exists ask, events s' = ask ++ events s
                       /\ optional (AskNewTrajectories 20) ask) s.
Proof.
  unfold tickSchedule. go;
    unfold quiet, sameRequest, optional in *; simpl in *; break;
    repeat match goal with
           | H : (_ =? 20)%Z = true |- _ => apply Z.eqb_eq in H
           end;
    repeat match goal with
           | |- _ /\ _ => split
           end;
    try congruence;
    repeat match goal with
           | H : _ \/ _ |- _ => destruct H
           end;
    first
      [ exists []; split; [simpl; congruence | left; reflexivity]
      | exists [AskNewTrajectories 20]; split; [simpl; congruence | right; reflexivity] ].
Qed.

(** The feedback part: the feedback is asked for first, and the step
    adaptation is run at most once, by the right-swing block. *)
Lemma tickFeedback_trace (s : @t Transform Twist) :
  wp (tickFeedback env)
     (fun _ s' =>
        quiet s s'
        /\ exists adapt,
             events s' = adapt ++ GetFeedbacks :: events s
             /\ (adapt = [] \/ exists n c, adapt = [RunStepAdaptator RightSwing n c]))
     (fun r s' =>
        r <> Some true
        /\ quiet s s'
        /\ exists adapt,
             events s' = adapt ++ GetFeedbacks :: events s
             /\ (adapt = [] \/ exists n c, adapt = [RunStepAdaptator RightSwing n c])) s.
Proof.
  unfold tickFeedback, adaptStep, adaptationInputs.
  go;
    repeat match goal with
           | H : (false && _)%bool = true |- _ => discriminate H
           end;
    break; subst; unfold quiet; simpl;
    repeat match goal with
           | |- _ /\ _ => split
           end;
    try reflexivity; try discriminate;
    first
      [ exists []; split; [reflexivity | left; reflexivity]
      | eexists [_]; split; [reflexivity | right; eexists; eexists; reflexivity] ].
Qed.

Lemma tickControl_same (s : @t Transform Twist) :
  wp (tickControl env) (fun _ s' => s' = s) (fun r s' => r = Some false /\ s' = s) s.
Proof.
  unfold tickControl. go; try split; reflexivity.
Qed.

(** The command part: the joint command is sent first; the clock moves only
    when the command was accepted. *)
Lemma tickCommand_trace (s : @t Transform Twist) :
  wp (tickCommand env)
     (fun _ s' =>
        m_robotState s' = m_robotState s
        /\ config s' = config s
        /\ m_dT s' = m_dT s
        /\ m_time s' = m_time s + m_dT s
        /\ events s' = SetDirectPositionReferences :: events s)
     (fun r s' =>
        r = Some false
        /\ quiet s s'
        /\ events s' = SetDirectPositionReferences :: events s) s.
Proof.
  unfold tickCommand, propagateTime.
  go; unfold quiet, sameOutsideBuffers in *; simpl in *; break;
    repeat split; congruence.
Qed.

(** What one tick in the state [Walking] does to the FSM, to the clock and
    to the log. *)
Lemma walking_tick_summary (s : @t Transform Twist) :
  m_robotState s = Walking ->
  post (updateModule appendVectorToDeque env s)
       (fun r s' =>
          m_robotState s' = Walking
          /\ config s' = config s
          /\ m_dT s' = m_dT s
          /\ (r = Some true -> m_time s' = m_time s + m_dT s)
          /\ (r <> Some true -> m_time s' = m_time s)
          /\ exists new,
               events s' = new ++ events s
               /\ tickTrace match r with Some true => true | _ => false end new).
Proof.
  intros Hw. apply post_run. unfold updateModule_body.
  wp_step. wp_step. apply wp_bind. rewrite Hw. unfold updateModule_Walking.
  apply wp_bind. eapply wp_mono; [| |apply tickSchedule_trace].
  2:{ intros o s1 (-> & (Q1 & Q2 & Q3 & Q4) & ask & Ea & Ha).
      repeat split; try congruence.
      exists ask. split; [exact Ea|].
      exists ask, [], [], []. simpl. repeat split; auto; try (left; reflexivity);
        discriminate. }
  intros ? s1 ((Q1 & Q2 & Q3 & Q4) & ask & Ea & Ha). cbv beta.
  apply wp_bind. eapply wp_mono; [| |apply tickFeedback_trace].
  2:{ intros o s2 (Ho & (R1 & R2 & R3 & R4) & adapt & Eb & Hb).
      repeat split; try congruence.
      exists (adapt ++ GetFeedbacks :: ask). split.
      { rewrite Eb, Ea, <- app_assoc. reflexivity. }
      exists ask, [GetFeedbacks], adapt, []. simpl.
      destruct o as [[|]|]; try congruence;
        repeat split; auto; try (right; reflexivity); try (left; reflexivity);
        try discriminate. }
  intros ? s2 ((R1 & R2 & R3 & R4) & adapt & Eb & Hb). cbv beta.
  apply wp_bind. eapply wp_mono; [| |apply tickControl_same].
  2:{ intros o s3 [-> ->].
      repeat split; try congruence.
      exists (adapt ++ GetFeedbacks :: ask). split.
      { rewrite Eb, Ea, <- app_assoc. reflexivity. }
      exists ask, [GetFeedbacks], adapt, []. simpl.
      repeat split; auto; try (right; reflexivity); try (left; reflexivity);
        discriminate. }
  intros ? s3 ->. cbv beta.
  eapply wp_mono; [| |apply tickCommand_trace].
  - intros ? s4 (T1 & T2 & T3 & T4 & Ec). cbv beta. wp_run.
    repeat split; try congruence.
    exists (SetDirectPositionReferences :: adapt ++ GetFeedbacks :: ask). split.
    { rewrite Ec, Eb, Ea. simpl. rewrite <- app_assoc. reflexivity. }
    exists ask, [GetFeedbacks], adapt, [SetDirectPositionReferences]. simpl.
    repeat split; auto; try (right; reflexivity); discriminate.
  - intros o s4 (-> & (T1 & T2 & T3 & T4) & Ec).
    repeat split; try congruence.
    exists (SetDirectPositionReferences :: adapt ++ GetFeedbacks :: ask). split.
    { rewrite Ec, Eb, Ea. simpl. rewrite <- app_assoc. reflexivity. }
    exists ask, [GetFeedbacks], adapt, [SetDirectPositionReferences]. simpl.
    repeat split; auto; try (right; reflexivity); discriminate.
Qed.

(** X8.  Whatever the collaborators answer, what a tick executed in the
    state [Walking] adds to the log of calls has a fixed shape.  In the
    order of the calls: at most one request to the planner, always for the
    merge point [20]; then at most one feedback acquisition; then at most
    one run of the step adaptation; then at most one joint command.
    Without a feedback acquisition in the tick there is neither a
    step-adaptation run nor a joint command, and a tick that returns [true]
    has acquired the feedback and sent exactly one joint command. *)
Theorem X8_walking_tick_trace (s : @t Transform Twist) :
  m_robotState s = Walking ->
  post (updateModule appendVectorToDeque env s)
       (fun r s' =>
          exists new,
            events s' = new ++ events s
            /\ tickTrace match r with Some true => true | _ => false end new).
Proof.
  intros Hw. eapply post_mono; [|apply walking_tick_summary; exact Hw].
  intros r s' (_ & _ & _ & _ & _ & H). exact H.
Qed.

(** X9.  A tick executed in the state [Walking] leaves the FSM in
    [Walking] and the period [m_dT] as it was, whatever happens in it; the
    clock [m_time] advances by exactly [m_dT] when the tick returns [true]
    and does not move when the tick returns [false] or throws. *)
Theorem X9_walking_tick_clock (s : @t Transform Twist) :
  m_robotState s = Walking ->
  post (updateModule appendVectorToDeque env s)
       (fun r s' =>
          m_robotState s' = Walking
          /\ m_dT s' = m_dT s
          /\ (r = Some true -> m_time s' = m_time s + m_dT s)
          /\ (r <> Some true -> m_time s' = m_time s)).
Proof.
  intros Hw. eapply post_mono; [|apply walking_tick_summary; exact Hw].
  intros r s' (H1 & _ & H2 & H3 & H4 & _). auto.
Qed.

Lemma tick_outside_walking (s : @t Transform Twist) :
  m_robotState s <> Walking ->
  post (updateModule appendVectorToDeque env s) (fun r _ => r = Some true)
  /\ (m_robotState s <> Preparing ->
      updateModule appendVectorToDeque env s = Returned true s)
  /\ (m_robotState s = Preparing ->
      match checkMotionDone env with
      | None =>
          updateModule appendVectorToDeque env s
          = Returned true (set_robotState Stopped (log Reset s))
      | Some false => updateModule appendVectorToDeque env s = Returned true s
      | Some true =>
          if negb (switchToControlMode env) then
            updateModule appendVectorToDeque env s
            = Returned true (set_robotState Stopped (log Reset s))
          else if negb (setDirectPositionReferences env) then
            updateModule appendVectorToDeque env s
            = Returned true
                (set_robotState Stopped
                   (log Reset (log SetDirectPositionReferences s)))
          else
            post (updateModule appendVectorToDeque env s)
                 (fun _ s' =>
                    s' = set_indexmilad 0
                           (set_robotState Prepared
                              (log SetDirectPositionReferences s)))
      end).
Proof.
  intros Hnw. split; [|split].
  - apply post_run. unfold updateModule_body.
    wp_step. wp_step. apply wp_bind.
    destruct (m_robotState s) eqn:Hst; try congruence;
      unfold updateModule_Preparing, failPreparing, reset; go; reflexivity.
  - intros Hnp. unfold updateModule, run, updateModule_body.
    rewrite bind_get. cbv beta.
    destruct (m_robotState s); try congruence; reflexivity.
  - intros Hp. unfold updateModule, run, updateModule_body.
    rewrite bind_get. cbv beta. rewrite Hp.
    unfold updateModule_Preparing, failPreparing, reset.
    destruct (checkMotionDone env) as [[|]|]; try reflexivity.
    destruct (switchToControlMode env); [|reflexivity].
    destruct (setDirectPositionReferences env); [|reflexivity].
    cbn [negb]. cbv iota.
    unfold post, bind, when, modify, get, ret. cbn [negb]. cbv beta iota.
    destruct (m_DCMPositionDesired (buffers (log SetDirectPositionReferences s)));
      cbv; exact I || reflexivity.
Qed.

(** X10.  A tick executed in a state other than [Walking] never returns
    [false] and never throws.  In the states [Configured], [Prepared],
    [Paused] and [Stopped] it returns [true] and changes nothing.  In
    [Preparing] every failure of a collaborator is absorbed: the module is
    reset and the FSM goes to [Stopped]; while the motion is not done
    nothing changes; and when the motion is done and both calls succeed the
    FSM goes to [Prepared], one joint command has been sent and the tick
    counter is zero. *)
Theorem X10_tick_outside_walking (s : @t Transform Twist) :
  m_robotState s <> Walking ->
  post (updateModule appendVectorToDeque env s) (fun r _ => r = Some true)
  /\ (m_robotState s <> Preparing ->
      updateModule appendVectorToDeque env s = Returned true s)
  /\ (m_robotState s = Preparing ->
      match checkMotionDone env with
      | None =>
          updateModule appendVectorToDeque env s
          = Returned true (set_robotState Stopped (log Reset s))
      | Some false => updateModule appendVectorToDeque env s = Returned true s
      | Some true =>
          if negb (switchToControlMode env) then
            updateModule appendVectorToDeque env s
            = Returned true (set_robotState Stopped (log Reset s))
          else if negb (setDirectPositionReferences env) then
            updateModule appendVectorToDeque env s
            = Returned true
                (set_robotState Stopped
                   (log Reset (log SetDirectPositionReferences s)))
          else
            post (updateModule appendVectorToDeque env s)
                 (fun _ s' =>
                    s' = set_indexmilad 0
                           (set_robotState Prepared
                              (log SetDirectPositionReferences s)))
      end).
Proof. apply tick_outside_walking. Qed.

(** X11.  With an empty merge-point queue a tick executed in the state
    [Walking] never completes: without a goal on the input port it runs into
    [m_mergePoints.front()] on the empty queue, which is undefined; with a
    goal it either returns [false] (the request was rejected) or reaches the
    same undefined [front()]. *)
Theorem X11_walking_tick_on_empty_merge_points (s : @t Transform Twist) :
  m_robotState s = Walking ->
  m_mergePoints s = [] ->
  (desiredUnicyclePosition env = None ->
   updateModule appendVectorToDeque env s = Undefined)
  /\ post (updateModule appendVectorToDeque env s)
          (fun r s' => r = Some false /\ desiredUnicyclePosition env <> None).
Proof.
  intros Hw Hm. split.
  - intros Hport.
    unfold updateModule, run, updateModule_body, updateModule_Walking, tickSchedule.
    unfold bind, get. cbv beta. rewrite Hw. cbv iota beta.
    destruct (INT_MAX <=? indexmilad s)%Z; [reflexivity|].
    cbn [when ret modify]. cbv beta iota. rewrite Hport.
    cbn [ret]. cbv beta iota. simpl m_mergePoints. rewrite Hm. reflexivity.
  - apply post_run. unfold updateModule_body.
    wp_step. wp_step. apply wp_bind. rewrite Hw.
    unfold updateModule_Walking, tickSchedule.
    wp_step. wp_step. wp_step. wp_step. wp_step; [wp_step|].
    wp_step. wp_step. wp_step.
    destruct (desiredUnicyclePosition env) as [[x y]|] eqn:Hport.
    + wp_step. call_step. wp_step.
      * wp_step. wp_step. wp_step.
        destruct Hcall as (_ & _ & _ & Hmerge & _). simpl in Hmerge.
        rewrite Hmerge, Hm. apply wp_undefined.
      * split; [reflexivity | discriminate].
    + wp_step. wp_step. wp_step. wp_step. simpl m_mergePoints. rewrite Hm.
      apply wp_undefined.
Qed.

Lemma setPlannerInput_contract (x y : R) (s : @t Transform Twist) :
  post (setPlannerInput x y s)
       (fun r s' =>
          r <> None
          /\ buffers s' = buffers s
          /\ m_mergePoints s' = m_mergePoints s
          /\ quiet s s'
          /\ events s' = events s
          /\ (r = Some false ->
              s' = s
              /\ m_mergePoints s = []
              /\ exists l ql,
                   m_leftInContact (buffers s) = l :: ql
                   /\ (l = false
                       \/ exists qr, m_rightInContact (buffers s) = false :: qr))
          /\ (r = Some true -> m_newTrajectoryRequired s' = true)).
Proof.
  apply post_run. unfold setPlannerInput_body.
  wp_step. wp_step.
  destruct (m_mergePoints s) as [|f [|g rest]] eqn:Hm; wp_run;
    unfold quiet; simpl; repeat split; try congruence; try discriminate; auto.
  - subst. eexists; eexists. split; [eassumption|].
    right. eexists. rewrite andb_true_l in *. subst. eassumption.
  - subst. eexists; eexists. split; [eassumption|]. left. reflexivity.
Qed.

(** X12.  [setPlannerInput] never throws and never touches the buffers, the
    merge points, the FSM state, the clock or the log.  It returns [false]
    only on an empty merge-point queue with a foot out of contact, and has
    then changed nothing; whenever it returns [true] a request is pending
    afterwards. *)
Theorem X12_setPlannerInput_contract (x y : R) (s : @t Transform Twist) :
  post (setPlannerInput x y s)
       (fun r s' =>
          r <> None
          /\ buffers s' = buffers s
          /\ m_mergePoints s' = m_mergePoints s
          /\ quiet s s'
          /\ events s' = events s
          /\ (r = Some false ->
              s' = s
              /\ m_mergePoints s = []
              /\ exists l ql,
                   m_leftInContact (buffers s) = l :: ql
                   /\ (l = false
                       \/ exists qr, m_rightInContact (buffers s) = false :: qr))
          /\ (r = Some true -> m_newTrajectoryRequired s' = true)).
Proof. apply setPlannerInput_contract. Qed.

Lemma generateFirstTrajectories_frame (s : @t Transform Twist) :
  post (generateFirstTrajectories appendVectorToDeque env cenv s)
       (fun r s' =>
          r <> None
          /\ m_robotState s' = m_robotState s
          /\ sameRequest s s'
          /\ events s' = events s
          /\ (r = Some true ->
              m_time s' = 0
              /\ isTrajectoryComputed (planned env) = true
              /\ exists m0, p_mergePoints (planned env) = m0 :: m_mergePoints s')).
Proof.
  apply post_run. go; frame_solve; intros; break; subst; simpl; eauto; try discriminate;
    match goal with
    | H : Some true = Some true -> _ |- _ => destruct (H eq_refl) as [? [? ?]]
    end; eauto.
Qed.

Lemma resetZMPFilters_same (s : @t Transform Twist) :
  post (resetZMPFilters env cenv s) (fun r s' => r <> None /\ s' = s).
Proof.
  apply post_run. go; break; subst; split; congruence.
Qed.

Ltac command_step :=
  lazymatch goal with
  | |- wp (call (generateFirstTrajectories _ _ _)) _ _ _ =>
      apply wp_call; eapply post_mono; [|apply generateFirstTrajectories_frame]
  | |- wp (call (resetZMPFilters _ _)) _ _ _ =>
      apply wp_call; eapply post_mono; [|apply resetZMPFilters_same]
  | |- wp (call (setPlannerInput _ _)) _ _ _ =>
      apply wp_call; eapply post_mono; [|apply setPlannerInput_contract]
  end;
  let r := fresh "r" in
  let s' := fresh "s" in
  let H := fresh "Hcall" in
  intros r s' H; destruct r as [?|]; [cbv beta | destruct H as [H _]; congruence].

Ltac command_go := repeat (wp_step || command_step).

Lemma WalkingFSM_eqb_eq (a b : WalkingFSM) : WalkingFSM_eqb a b = true <-> a = b.
Proof. destruct a, b; simpl; split; congruence. Qed.

Lemma WalkingFSM_eqb_neq (a b : WalkingFSM) : WalkingFSM_eqb a b = false <-> a <> b.
Proof. destruct a, b; simpl; split; congruence. Qed.

Ltac fsm_facts :=
  repeat match goal with
         | H : (_ && _)%bool = true |- _ => apply andb_prop in H; destruct H
         | H : (_ && _)%bool = false |- _ => apply andb_false_iff in H; destruct H
         | H : negb _ = true |- _ => apply negb_true_iff in H
         | H : negb _ = false |- _ => apply negb_false_iff in H
         | H : WalkingFSM_eqb _ _ = true |- _ => apply WalkingFSM_eqb_eq in H
         | H : WalkingFSM_eqb _ _ = false |- _ => apply WalkingFSM_eqb_neq in H
         end.

Lemma prepareRobot_summary (onTheFly : bool) (s : @t Transform Twist) :
  post (prepareRobot appendVectorToDeque env cenv onTheFly s)
       (fun r s' =>
          r <> None
          /\ sameRequest s s'
          /\ events s' = events s
          /\ (r = Some false -> m_robotState s' = m_robotState s)
          /\ (m_robotState s <> Configured -> m_robotState s <> Stopped ->
              r = Some false /\ s' = s)
          /\ (r = Some true ->
              (m_robotState s = Configured \/ m_robotState s = Stopped)
              /\ m_robotState s' = Preparing
              /\ m_time s' = 0
              /\ isTrajectoryComputed (planned env) = true
              /\ exists m0, p_mergePoints (planned env) = m0 :: m_mergePoints s')).
Proof.
  apply post_run. unfold prepareRobot.
  command_go; fsm_facts; unfold sameRequest in *; simpl in *; break;
    repeat match goal with
           | H : ?b = true |- _ => is_var b; subst b
           | H : ?b = false |- _ => is_var b; subst b
           end;
    repeat match goal with
           | H : Some true = Some true -> _ |- _ => specialize (H eq_refl)
           end; break;
    repeat split; try congruence; try discriminate; try tauto; eauto.
Qed.

Lemma startWalking_summary (s : @t Transform Twist) :
  post (startWalking env cenv s)
       (fun r s' =>
          r <> None
          /\ sameRequest s s'
          /\ (r = Some false ->
              s' = s /\ m_robotState s <> Prepared /\ m_robotState s <> Paused)
          /\ (r = Some true ->
              (m_robotState s = Prepared \/ m_robotState s = Paused)
              /\ s' = set_firstStep true (set_robotState Walking s))).
Proof.
  apply post_run. unfold startWalking.
  command_go; fsm_facts; unfold sameRequest in *; simpl in *; break; subst;
    repeat split; try congruence; try discriminate; try tauto.
Qed.

Lemma pauseWalking_summary (s : @t Transform Twist) :
  post (pauseWalking s)
       (fun r s' =>
          r <> None
          /\ sameRequest s s'
          /\ (r = Some false -> s' = s /\ m_robotState s <> Walking)
          /\ (r = Some true ->
              m_robotState s = Walking /\ s' = set_robotState Paused s)).
Proof.
  apply post_run. unfold pauseWalking.
  command_go; fsm_facts; unfold sameRequest in *; simpl in *; break; subst;
    repeat split; try congruence; try discriminate; try tauto.
Qed.

Lemma stopWalking_summary (s : @t Transform Twist) :
  post (stopWalking s)
       (fun r s' =>
          r <> None
          /\ sameRequest s s'
          /\ (r = Some false -> s' = s /\ m_robotState s <> Walking)
          /\ (r = Some true ->
              m_robotState s = Walking
              /\ s' = set_robotState Stopped (log Reset s))).
Proof.
  apply post_run. unfold stopWalking, reset.
  command_go; fsm_facts; unfold sameRequest in *; simpl in *; break; subst;
    repeat split; try congruence; try discriminate; try tauto.
Qed.

Lemma setGoal_summary (x y : R) (s : @t Transform Twist) :
  post (setGoal x y s)
       (fun r s' =>
          r <> None
          /\ m_robotState s' = m_robotState s
          /\ (r = Some false -> s' = s)
          /\ (r = Some true -> m_robotState s = Walking)).
Proof.
  apply post_run. unfold setGoal.
  command_go; fsm_facts; unfold quiet in *; simpl in *; break; subst;
    repeat split; try congruence; try discriminate; try tauto;
    intros; repeat match goal with
                   | H : ?a = ?a -> _ |- _ => specialize (H eq_refl)
                   end; break; congruence.
Qed.

Lemma preparing_tick_states (s : @t Transform Twist) :
  m_robotState s = Preparing ->
  post (updateModule appendVectorToDeque env s)
       (fun _ s' =>
          m_robotState s' = Preparing
          \/ m_robotState s' = Prepared
          \/ m_robotState s' = Stopped).
Proof.
  intros Hp. apply post_run. unfold updateModule_body.
  wp_step. wp_step. apply wp_bind. rewrite Hp.
  unfold updateModule_Preparing, failPreparing, reset.
  go; simpl; tauto.
Qed.

Lemma tick_transition (s : @t Transform Twist) :
  post (updateModule appendVectorToDeque env s)
       (fun _ s' => transition CmdTick (m_robotState s) (m_robotState s')).
Proof.
  destruct (m_robotState s) eqn:Hst.
  - rewrite (proj1 (proj2 (tick_outside_walking s ltac:(congruence))) ltac:(congruence)).
    left. exact Hst.
  - eapply post_mono; [|apply preparing_tick_states; exact Hst].
    intros r s' [H | [H | H]]; rewrite H; unfold transition; tauto.
  - rewrite (proj1 (proj2 (tick_outside_walking s ltac:(congruence))) ltac:(congruence)).
    left. exact Hst.
  - eapply post_mono; [|apply walking_tick_summary; exact Hst].
    intros r s' (H & _). left. exact H.
  - rewrite (proj1 (proj2 (tick_outside_walking s ltac:(congruence))) ltac:(congruence)).
    left. exact Hst.
  - rewrite (proj1 (proj2 (tick_outside_walking s ltac:(congruence))) ltac:(congruence)).
    left. exact Hst.
Qed.

Lemma step_transition (c : Command) (s : @t Transform Twist) :
  post (step appendVectorToDeque env cenv c s)
       (fun r s' =>
          transition c (m_robotState s) (m_robotState s')
          /\ (r = Some false ->
              match c with
              | CmdStart | CmdPause | CmdStop | CmdSetGoal _ _ => s' = s
              | CmdPrepare _ | CmdTick => True
              end)).
Proof.
  destruct c as [onTheFly | | | | x y |]; simpl step.
  - eapply post_mono; [|apply prepareRobot_summary].
    intros r s' (Hr & _ & _ & Hf & _ & Ht). split; [|auto].
    destruct r as [[|]|]; [| |congruence].
    + destruct (Ht eq_refl) as (Hb & Ha & _). right. split; assumption.
    + left. apply Hf. reflexivity.
  - eapply post_mono; [|apply startWalking_summary].
    intros r s' (Hr & _ & Hf & Ht). split.
    + destruct r as [[|]|]; [| |congruence].
      * destruct (Ht eq_refl) as (Hb & ->). right. split; [exact Hb | reflexivity].
      * destruct (Hf eq_refl) as (-> & _). left. reflexivity.
    + intros E. apply Hf. exact E.
  - eapply post_mono; [|apply pauseWalking_summary].
    intros r s' (Hr & _ & Hf & Ht). split.
    + destruct r as [[|]|]; [| |congruence].
      * destruct (Ht eq_refl) as (Hb & ->). right. split; [exact Hb | reflexivity].
      * destruct (Hf eq_refl) as (-> & _). left. reflexivity.
    + intros E. apply Hf. exact E.
  - eapply post_mono; [|apply stopWalking_summary].
    intros r s' (Hr & _ & Hf & Ht). split.
    + destruct r as [[|]|]; [| |congruence].
      * destruct (Ht eq_refl) as (Hb & ->). right. split; [exact Hb | reflexivity].
      * destruct (Hf eq_refl) as (-> & _). left. reflexivity.
    + intros E. apply Hf. exact E.
  - eapply post_mono; [|apply setGoal_summary].
    intros r s' (Hr & Hs & Hf & _). split; [left; exact Hs | exact Hf].
  - eapply post_mono; [|apply tick_transition].
    intros r s' H. split; [exact H | auto].
Qed.

(** X13.  Every command moves the FSM only along its own edge: [prepare]
    from [Configured] or [Stopped] to [Preparing]; the tick from
    [Preparing] to [Prepared] or [Stopped]; [start] from [Prepared] or
    [Paused] to [Walking]; [pause] from [Walking] to [Paused]; [stop] from
    [Walking] to [Stopped]; in every other case, and always for [setGoal]
    and for a tick in [Walking], the FSM state is unchanged.  A [start],
    [pause], [stop] or [setGoal] that returns [false] has changed nothing at
    all. *)
Theorem X13_fsm_transitions (c : Command) (s : @t Transform Twist) :
  post (step appendVectorToDeque env cenv c s)
       (fun r s' =>
          transition c (m_robotState s) (m_robotState s')
          /\ (r = Some false ->
              match c with
              | CmdStart | CmdPause | CmdStop | CmdSetGoal _ _ => s' = s
              | CmdPrepare _ | CmdTick => True
              end)).
Proof. apply step_transition. Qed.

(** X14.  The pending flag [m_newTrajectoryRequired] and the merge counter
    are touched by [setGoal] and by the tick only: [prepare], [start],
    [pause] and [stop] leave both as they are, so a request that was pending
    when the robot was stopped is still pending, with its old counter, after
    the next [prepare] and [start]. *)
Theorem X14_commands_keep_request (c : Command) (s : @t Transform Twist) :
  isTick c = false ->
  (forall x y, c <> CmdSetGoal x y) ->
  post (step appendVectorToDeque env cenv c s) (fun _ s' => sameRequest s s').
Proof.
  intros Htick Hgoal.
  destruct c as [onTheFly | | | | x y |]; simpl step; try discriminate.
  - eapply post_mono; [|apply prepareRobot_summary]. intros r s' H. apply H.
  - eapply post_mono; [|apply startWalking_summary]. intros r s' H. apply H.
  - eapply post_mono; [|apply pauseWalking_summary]. intros r s' H. apply H.
  - eapply post_mono; [|apply stopWalking_summary]. intros r s' H. apply H.
  - exfalso. apply (Hgoal x y). reflexivity.
Qed.

(** X15.  [prepareRobot] never throws.  When it returns [true] the robot was
    in [Configured] or [Stopped] and is now in [Preparing], the clock was
    reset to zero, the planner had a trajectory, and the merge points are
    the planner's without their first entry.  When it returns [false] the
    FSM state is unchanged, and from any state other than [Configured] and
    [Stopped] it returns [false] without changing anything. *)
Theorem X15_prepareRobot_outcome (onTheFly : bool) (s : @t Transform Twist) :
  post (prepareRobot appendVectorToDeque env cenv onTheFly s)
       (fun r s' =>
          r <> None
          /\ (r = Some false -> m_robotState s' = m_robotState s)
          /\ (m_robotState s <> Configured -> m_robotState s <> Stopped ->
              r = Some false /\ s' = s)
          /\ (r = Some true ->
              (m_robotState s = Configured \/ m_robotState s = Stopped)
              /\ m_robotState s' = Preparing
              /\ m_time s' = 0
              /\ isTrajectoryComputed (planned env) = true
              /\ exists m0, p_mergePoints (planned env) = m0 :: m_mergePoints s')).
Proof.
  eapply post_mono; [|apply prepareRobot_summary].
  intros r s' (H1 & _ & _ & H2 & H3 & H4). auto.
Qed.

End CommandFacts.

Section RunFacts.

Import WalkingModule.

Context {Transform Twist : Type}.
Context (appendVectorToDeque : forall T : Type, list T -> list T -> Z -> list T).

(** X16.  There is no way around [prepare]: from [Configured] or [Stopped],
    whatever sequence of ticks and commands without a [prepare] is run and
    whatever the collaborators answer, the FSM stays where it is; in
    particular the robot does not walk again after a stop until it has been
    prepared. *)
Theorem X16_no_walking_without_prepare (l : list (@Request Transform Twist))
    (s : @t Transform Twist) :
  m_robotState s = Configured \/ m_robotState s = Stopped ->
  forallb (fun q => negb (isPrepare (snd q))) l = true ->
  post (runCommands appendVectorToDeque l s)
       (fun _ s' => m_robotState s' = m_robotState s).
Proof.
  revert s. induction l as [|[[env cenv] c] l IH]; intros s Hs Hl.
  - reflexivity.
  - simpl in Hl. apply andb_prop in Hl. destruct Hl as [Hc Hl].
    simpl runCommands.
    pose proof (step_transition appendVectorToDeque env cenv c s) as Hstep.
    destruct (step appendVectorToDeque env cenv c s) as [b s' | s' |] eqn:E;
      simpl in Hstep.
    + assert (Hsame : m_robotState s' = m_robotState s).
      { destruct Hstep as [[Hsame | Hmove] _]; [exact Hsame|].
        destruct c; simpl in Hc; try discriminate; simpl in Hmove;
          destruct Hs as [Hs | Hs]; try rewrite Hs in Hmove;
          intuition discriminate. }
      destruct (isTick c && negb b)%bool.
      * exact Hsame.
      * eapply post_mono; [|apply IH; [rewrite Hsame; exact Hs | exact Hl]].
        intros r s'' H. simpl in H. congruence.
    + destruct Hstep as [[Hsame | Hmove] _]; [exact Hsame|].
      destruct c; simpl in Hc; try discriminate; simpl in Hmove;
        destruct Hs as [Hs | Hs]; try rewrite Hs in Hmove;
        intuition discriminate.
    + exact I.
Qed.

End RunFacts.

(* ================================================================== *)
(** * The zero-moment point *)
(* ================================================================== *)

Section ZMPFacts.

Import WalkingModule.

Context (leftFootToWorld rightFootToWorld : Vector3 -> Vector3).
Context (thresholdFz epsilonZMP : R).

(** The force that [evaluateZMP] keeps for a foot in the branch with
    saturation is the measured one: [saturateFz] is only called with a force
    that is not below the threshold, where it changes nothing. *)
Lemma footZMPSaturated_force (wrench : Wrench) (zmp0 : Vector3) :
  snd (footZMPSaturated thresholdFz epsilonZMP wrench zmp0)
  = at3 (getLinearVec3 wrench) 2.
Proof.
  unfold footZMPSaturated, saturateFz.
  destruct (Rlt_dec (at3 (getLinearVec3 wrench) 2) thresholdFz); [reflexivity|].
  destruct (Rlt_dec thresholdFz 0); [reflexivity|].
  destruct (Rge_dec (at3 (getLinearVec3 wrench) 2) thresholdFz); [reflexivity|].
  lra.
Qed.

(** X17.  [evaluateZMP] returns [false] exactly when the FK solver is
    missing or the sum of the two measured vertical forces is below [0.1],
    with or without saturation and whatever the threshold: the saturation
    never changes a force that enters the sum. *)
Theorem X17_evaluateZMP_fails_iff (FKSolverReady useZMPSaturation : bool)
    (rightWrench leftWrench : Wrench) (zmpLeft0 zmpRight0 : Vector3) :
  evaluateZMP_of leftFootToWorld rightFootToWorld FKSolverReady useZMPSaturation
                 thresholdFz epsilonZMP rightWrench leftWrench zmpLeft0 zmpRight0
  = None
  <-> FKSolverReady = false
      \/ at3 (getLinearVec3 leftWrench) 2 + at3 (getLinearVec3 rightWrench) 2
         < 1 / 10.
Proof.
  unfold evaluateZMP_of.
  destruct FKSolverReady; simpl negb; cbv iota; [|split; auto].
  destruct useZMPSaturation.
  - pose proof (footZMPSaturated_force rightWrench zmpRight0) as Hr.
    pose proof (footZMPSaturated_force leftWrench zmpLeft0) as Hl.
    destruct (footZMPSaturated thresholdFz epsilonZMP rightWrench zmpRight0)
      as [[zr dr] fr].
    destruct (footZMPSaturated thresholdFz epsilonZMP leftWrench zmpLeft0)
      as [[zl dl] fl].
    simpl snd in Hr, Hl. subst fr fl. cbv zeta.
    destruct (Rlt_dec _ (1 / 10)) as [Hlt | Hge].
    + split; auto.
    + split; [discriminate|]. intros [E | E]; [discriminate | lra].
  - destruct (footZMP rightWrench zmpRight0) as [zr dr].
    destruct (footZMP leftWrench zmpLeft0) as [zl dl].
    cbv zeta.
    destruct (Rlt_dec _ (1 / 10)) as [Hlt | Hge].
    + split; [|auto]. intros _. right. lra.
    + split; [discriminate|]. intros [E | E]; [discriminate | lra].
Qed.



(** X20.  With saturation switched on and a negative threshold,
    [saturateFz] refuses both feet, and [evaluateZMP] still returns [true]:
    as soon as the two forces sum to at least [0.1] the ZMP it writes is the
    origin of the world frame, whatever the wrenches are.  The same result
    comes out when both forces are below a threshold that their sum
    reaches. *)
Theorem X20_zmp_without_a_defined_foot
    (rightWrench leftWrench : Wrench) (zmpLeft0 zmpRight0 : Vector3) :
  let fl := at3 (getLinearVec3 leftWrench) 2 in
  let fr := at3 (getLinearVec3 rightWrench) 2 in
  thresholdFz < 0 \/ (fl < thresholdFz /\ fr < thresholdFz) ->
  1 / 10 <= fl + fr ->
  evaluateZMP_of leftFootToWorld rightFootToWorld true true
                 thresholdFz epsilonZMP rightWrench leftWrench
                 zmpLeft0 zmpRight0
  = Some (0, 0).
Proof.
  intros fl fr Hth Htot.
  unfold evaluateZMP_of. simpl negb. cbv iota.
  unfold footZMPSaturated, saturateFz. fold fl fr.
  destruct Hth as [Hneg | [Hl Hr]].
  - destruct (Rlt_dec thresholdFz 0); [|lra].
    destruct (Rlt_dec fr thresholdFz); destruct (Rlt_dec fl thresholdFz);
      cbv zeta;
      (destruct (Rlt_dec (fl + fr) (1 / 10)); [lra|]);
      f_equal; simpl; f_equal; field; lra.
  - destruct (Rlt_dec fr thresholdFz); [|lra].
    destruct (Rlt_dec fl thresholdFz); [|lra].
    cbv zeta.
    destruct (Rlt_dec (fl + fr) (1 / 10)); [lra|].
    f_equal. simpl. f_equal; field; lra.
Qed.

End ZMPFacts.

(* ================================================================== *)
(** * The properties above on the sample states *)
(* ================================================================== *)

Lemma X8_walking_tick_trace_witness :
  let s := Sample.sampleState 40 [30%Z] false 0%Z true in
  let env := Sample.sampleEnv true in
  WalkingModule.m_robotState s = WalkingModule.Walking
  /\ WalkingModule.returns (WalkingModule.updateModule Sample.sampleAppend env s)
       (fun r _ => r = true)
  /\ WalkingModule.post (WalkingModule.updateModule Sample.sampleAppend env s)
       (fun r s' =>
          exists new,
            WalkingModule.events s' = new ++ WalkingModule.events s
            /\ WalkingModule.tickTrace
                 match r with Some true => true | _ => false end new).
Proof.
  intros s env.
  assert (Hw : WalkingModule.m_robotState s = WalkingModule.Walking) by reflexivity.
  split; [exact Hw|]. split.
  - cbv - [Rplus Rminus Rmult Rdiv Rinv Ropp exp sqrt ln IZR]. reflexivity.
  - exact (X8_walking_tick_trace Sample.sampleAppend env s Hw).
Defined.

Lemma X9_walking_tick_clock_witness :
  let s := Sample.sampleState 40 [30%Z] false 0%Z false in
  let env := Sample.sampleEnv true in
  WalkingModule.m_robotState s = WalkingModule.Walking
  /\ WalkingModule.returns (WalkingModule.updateModule Sample.sampleAppend env s)
       (fun r _ => r = true)
  /\ WalkingModule.post (WalkingModule.updateModule Sample.sampleAppend env s)
       (fun r s' =>
          WalkingModule.m_robotState s' = WalkingModule.Walking
          /\ WalkingModule.m_dT s' = WalkingModule.m_dT s
          /\ (r = Some true ->
              WalkingModule.m_time s' = WalkingModule.m_time s + WalkingModule.m_dT s)
          /\ (r <> Some true -> WalkingModule.m_time s' = WalkingModule.m_time s)).
Proof.
  intros s env.
  assert (Hw : WalkingModule.m_robotState s = WalkingModule.Walking) by reflexivity.
  split; [exact Hw|]. split.
  - cbv - [Rplus Rminus Rmult Rdiv Rinv Ropp exp sqrt ln IZR]. reflexivity.
  - exact (X9_walking_tick_clock Sample.sampleAppend env s Hw).
Defined.

Lemma X10_tick_outside_walking_witness :
  let s := WalkingModule.set_robotState WalkingModule.Paused
             (Sample.sampleState 40 [30%Z] false 0%Z false) in
  let env := Sample.sampleEnv true in
  WalkingModule.m_robotState s <> WalkingModule.Walking
  /\ WalkingModule.m_robotState s <> WalkingModule.Preparing
  /\ WalkingModule.updateModule Sample.sampleAppend env s
     = WalkingModule.Returned true s.
Proof.
  intros s env.
  assert (Hw : WalkingModule.m_robotState s <> WalkingModule.Walking)
    by (simpl; discriminate).
  assert (Hp : WalkingModule.m_robotState s <> WalkingModule.Preparing)
    by (simpl; discriminate).
  split; [exact Hw|]. split; [exact Hp|].
  exact (proj1 (proj2 (X10_tick_outside_walking Sample.sampleAppend env s Hw)) Hp).
Defined.

Lemma X11_walking_tick_on_empty_merge_points_witness :
  let s := Sample.sampleState 40 [] false 0%Z false in
  let env := Sample.sampleEnv true in
  WalkingModule.m_robotState s = WalkingModule.Walking
  /\ WalkingModule.m_mergePoints s = []
  /\ WalkingModule.desiredUnicyclePosition env = None
  /\ WalkingModule.updateModule Sample.sampleAppend env s = WalkingModule.Undefined.
Proof.
  intros s env.
  assert (Hw : WalkingModule.m_robotState s = WalkingModule.Walking) by reflexivity.
  assert (Hm : WalkingModule.m_mergePoints s = []) by reflexivity.
  assert (Hport : WalkingModule.desiredUnicyclePosition env = None) by reflexivity.
  split; [exact Hw|]. split; [exact Hm|]. split; [exact Hport|].
  exact (proj1 (X11_walking_tick_on_empty_merge_points Sample.sampleAppend env s Hw Hm)
               Hport).
Defined.

Lemma X14_commands_keep_request_witness :
  let s := Sample.sampleState 40 [30%Z] true 7%Z false in
  let env := Sample.sampleEnv true in
  WalkingModule.isTick WalkingModule.CmdStop = false
  /\ WalkingModule.returns
       (WalkingModule.step Sample.sampleAppend env Sample.sampleCommandEnv
          WalkingModule.CmdStop s)
       (fun r s' => r = true /\ WalkingModule.m_robotState s' = WalkingModule.Stopped)
  /\ WalkingModule.post
       (WalkingModule.step Sample.sampleAppend env Sample.sampleCommandEnv
          WalkingModule.CmdStop s)
       (fun _ s' => WalkingModule.sameRequest s s').
Proof.
  intros s env.
  assert (Ht : WalkingModule.isTick WalkingModule.CmdStop = false) by reflexivity.
  assert (Hg : forall x y, WalkingModule.CmdStop <> WalkingModule.CmdSetGoal x y)
    by (intros x y; discriminate).
  split; [exact Ht|]. split.
  - cbv - [Rplus Rminus Rmult Rdiv Rinv Ropp exp sqrt ln IZR]. split; reflexivity.
  - exact (X14_commands_keep_request Sample.sampleAppend env Sample.sampleCommandEnv
             WalkingModule.CmdStop s Ht Hg).
Defined.

Lemma X16_no_walking_without_prepare_witness :
  let s := WalkingModule.set_robotState WalkingModule.Stopped
             (Sample.sampleState 40 [30%Z] false 0%Z false) in
  let q (c : WalkingModule.Command) :=
    (Sample.sampleEnv true, Sample.sampleCommandEnv, c) in
  let l := [q WalkingModule.CmdStart; q WalkingModule.CmdTick;
            q (WalkingModule.CmdSetGoal 1 0); q WalkingModule.CmdPause;
            q WalkingModule.CmdStop; q WalkingModule.CmdTick] in
  (WalkingModule.m_robotState s = WalkingModule.Configured
   \/ WalkingModule.m_robotState s = WalkingModule.Stopped)
  /\ forallb (fun q => negb (WalkingModule.isPrepare (snd q))) l = true
  /\ WalkingModule.returns (WalkingModule.runCommands Sample.sampleAppend l s)
       (fun r _ => r = true)
  /\ WalkingModule.post (WalkingModule.runCommands Sample.sampleAppend l s)
       (fun _ s' => WalkingModule.m_robotState s' = WalkingModule.m_robotState s).
Proof.
  intros s q l.
  assert (Hs : WalkingModule.m_robotState s = WalkingModule.Configured
               \/ WalkingModule.m_robotState s = WalkingModule.Stopped)
    by (right; reflexivity).
  assert (Hl : forallb (fun q => negb (WalkingModule.isPrepare (snd q))) l = true)
    by reflexivity.
  split; [exact Hs|]. split; [exact Hl|]. split.
  - cbv - [Rplus Rminus Rmult Rdiv Rinv Ropp exp sqrt ln IZR]. reflexivity.
  - exact (X16_no_walking_without_prepare Sample.sampleAppend l s Hs Hl).
Defined.



Lemma X20_zmp_without_a_defined_foot_witness :
  WalkingModule.evaluateZMP_of (fun p => p) (fun p => p) true true (-1) 0
    (Sample.sampleWrench 100 (-20)) (Sample.sampleWrench 300 0)
    (mkVector3 7 7 7) (mkVector3 7 7 7)
  = Some (0, 0).
Proof.
  apply (X20_zmp_without_a_defined_foot (fun p => p) (fun p => p) (-1) 0
           (Sample.sampleWrench 100 (-20)) (Sample.sampleWrench 300 0)
           (mkVector3 7 7 7) (mkVector3 7 7 7)); simpl; [left|]; lra.
Defined.

(** One life of the module on the sample collaborators: prepared from
    [Configured], it reaches [Prepared] at the next tick, walks for two
    ticks, is paused, started again and stopped.  The clock was reset by the
    preparation and has advanced by two periods; three joint commands were
    sent, one by the tick in [Preparing] and one by each tick in
    [Walking]. *)
Example prepare_walk_stop :
  let q (c : WalkingModule.Command) :=
    (Sample.readyEnv, Sample.sampleCommandEnv, c) in
  WalkingModule.returns
    (WalkingModule.runCommands Sample.sampleAppend
       [q (WalkingModule.CmdPrepare false); q WalkingModule.CmdTick;
        q WalkingModule.CmdStart; q WalkingModule.CmdTick;
        q WalkingModule.CmdTick; q WalkingModule.CmdPause;
        q WalkingModule.CmdStart; q WalkingModule.CmdStop]
       Sample.configuredState)
    (fun r s' =>
       r = true
       /\ WalkingModule.m_robotState s' = WalkingModule.Stopped
       /\ WalkingModule.m_mergePoints s' = [28%Z]
       /\ WalkingModule.m_time s' = 0 + 1 / 100 + 1 / 100
       /\ WalkingModule.commandsSent (WalkingModule.events s') = 3%nat).
Proof.
  cbv - [Rplus Rminus Rmult Rdiv Rinv Ropp exp sqrt ln IZR].
  repeat split.
Qed.
